(** * Animated bus map: the resampling and frame pipeline of
    [create_animated_map.ipynb]

    A shallow embedding of the notebook's four functions
    ([preprocessing_positions], [preprocessing_lines], [create_maps],
    [create_gif]) and of the cells that call them, with the properties the
    specification states about them.

    Modelling conventions:
    - a pandas [DataFrame] with a [DatetimeIndex] is a list of
      (index label, row) pairs in frame order; timestamps are whole seconds
      since the epoch ([update_time] is a Unix time in seconds);
    - a cell that pandas holds as NaN/NaT is [None];
    - float64 coordinates are opaque data, written as rationals; the only
      computation the notebook does on them is the reprojection done by
      pyproj, which is a parameter ([proj]);
    - [sort_index] is any function returning a sorted permutation (a class,
      with merge sort as an instance), since pandas' default sort is not
      stable;
    - matplotlib/contextily drawing is a parameter ([plot_frame]) that may
      raise; the file system is a finite map from paths to files, and the
      output directories are taken to exist;
    - Python exceptions are the left injection of a sum; the caller's frame
      and the file system are passed explicitly, so that what a call changes
      before it raises stays changed. *)

From stdpp Require Import gmap strings list sorting.
From Stdlib Require Import ZArith QArith_base Ascii String.

Local Open Scope Z_scope.

(** ** Index order

    [DataFrame.sort_index] sorts with numpy's default (unstable) quicksort:
    the result is a sorted permutation, and nothing more is known about the
    order of rows that share a label.  The development is parametric in such
    a sort. *)

Definition index_le {A} : relation (Z * A) := λ x y, x.1 ≤ y.1.

Class IndexSort := {
  sort_index : ∀ {A}, list (Z * A) → list (Z * A);
  sort_index_Permutation : ∀ {A} (df : list (Z * A)), sort_index df ≡ₚ df;
  sort_index_Sorted : ∀ {A} (df : list (Z * A)), Sorted index_le (sort_index df)
}.

Global Instance index_le_dec {A} : RelDecision (@index_le A).
Proof. intros x y. unfold index_le. apply _. Defined.

Global Instance index_le_total {A} : Total (@index_le A).
Proof. intros x y. unfold index_le. lia. Qed.

Global Instance index_le_trans {A} : Transitive (@index_le A).
Proof. intros x y z. unfold index_le. lia. Qed.

(** One admissible implementation: the (stable) merge sort. *)
Definition merge_index_sort : IndexSort := {|
  sort_index := λ A, merge_sort index_le;
  sort_index_Permutation := λ A, merge_sort_Permutation index_le;
  sort_index_Sorted := λ A, Sorted_merge_sort index_le
|}.

(** ** Data model *)

(** A raw position record, as ingested from the positions table. *)
Record PositionRecord := {
  trip_id : Z;
  update_time : Z;      (* Unix time, seconds *)
  longitude : Q;
  latitude : Q
}.

Global Instance Q_eq_dec : EqDecision Q.
Proof. solve_decision. Defined.

Global Instance PositionRecord_eq_dec : EqDecision PositionRecord.
Proof. solve_decision. Defined.

(** The caller's [df] object.  Its schema is the position columns; the
    column [update_datetime] exists only once something assigned it. *)
Record DataFrame := {
  records : list PositionRecord;
  update_datetime : option (list Z)
}.

(** What [pd.read_sql] hands over: the position columns only. *)
Definition read_sql (rs : list PositionRecord) : DataFrame :=
  {| records := rs; update_datetime := None |}.

(** A row of the position columns inside a frame; every cell is nullable. *)
Record Row := {
  row_trip_id : option Z;
  row_update_time : option Z;
  row_longitude : option Q;
  row_latitude : option Q
}.

Global Instance Row_eq_dec : EqDecision Row.
Proof. solve_decision. Defined.

Definition to_row (r : PositionRecord) : Row :=
  {| row_trip_id := Some (trip_id r);
     row_update_time := Some (update_time r);
     row_longitude := Some (longitude r);
     row_latitude := Some (latitude r) |}.

(** The row of an empty resampling bin: NaN in every column. *)
Definition nan_row : Row :=
  {| row_trip_id := None; row_update_time := None;
     row_longitude := None; row_latitude := None |}.

Definition Point : Type := Q * Q.

(** A row of the GeoDataFrame: the columns plus [geometry].  [None] stands
    for the point built from NaN coordinates. *)
Record GeoRow := {
  attrs : Row;
  geometry : option Point
}.

Global Instance GeoRow_eq_dec : EqDecision GeoRow.
Proof. solve_decision. Defined.

(** ** pandas primitives *)

(** [Series.unique] / [Index.unique] / [drop_duplicates(keep='first')]:
    the distinct values in order of first appearance. *)
Fixpoint unique `{EqDecision A} (l : list A) : list A :=
  match l with
  | [] => []
  | x :: l' => x :: filter (λ y, y ≠ x) (unique l')
  end.

(** [df.drop_duplicates()]: rows are compared on all their columns. *)
Definition drop_duplicates (df : DataFrame) : DataFrame :=
  match update_datetime df with
  | None => {| records := unique (records df); update_datetime := None |}
  | Some col =>
      let rows := unique (zip (records df) col) in
      {| records := rows.*1; update_datetime := Some rows.*2 |}
  end.

(** [pd.to_datetime(_, unit='s')] on whole seconds, and [pd.offsets.Hour]. *)
Definition to_datetime (s : Z) : Z := s.
Definition Hour (n : Z) : Z := n * 3600.

(** [df.set_index('update_datetime')]: the column becomes the index. *)
Definition set_index (dt : list Z) (rs : list PositionRecord) : list (Z * Row) :=
  zip dt (to_row <$> rs).

(** Elementwise [==] on a nullable column: NaN equals nothing. *)
Definition cell_eq (a b : option Z) : Prop := is_Some a ∧ a = b.

Global Instance cell_eq_dec a b : Decision (cell_eq a b).
Proof. unfold cell_eq. apply _. Defined.

(** [df[df['trip_id'] == trip]] *)
Definition trip_rows (trip : option Z) (df : list (Z * Row)) : list (Z * Row) :=
  filter (λ x, cell_eq (row_trip_id x.2) trip) df.

(** *** [resample('60s').first()] *)

Definition floor_60s (t : Z) : Z := t `div` 60 * 60.

Definition index_min {A} (df : list (Z * A)) : option Z :=
  match df with
  | [] => None
  | x :: df' => Some (foldr (λ y m, Z.min y.1 m) x.1 df')
  end.

Definition index_max {A} (df : list (Z * A)) : option Z :=
  match df with
  | [] => None
  | x :: df' => Some (foldr (λ y m, Z.max y.1 m) x.1 df')
  end.

(** Bin labels: every 60 s from the floor of the first label to the floor of
    the last one, both included, whether or not a row falls in the bin. *)
Definition bin_labels (lo hi : Z) : list Z :=
  (λ k : nat, floor_60s lo + 60 * Z.of_nat k) <$>
  seq 0 (S (Z.to_nat ((floor_60s hi - floor_60s lo) `div` 60))).

(** Bins are closed on the left: [b, b + 60). *)
Definition in_bin {A} (b : Z) (x : Z * A) : Prop := b ≤ x.1 < b + 60.

Global Instance in_bin_dec {A} b (x : Z * A) : Decision (in_bin b x).
Proof. unfold in_bin. apply _. Defined.

(** First non-null entry of a column. *)
Definition first_valid {A} (col : list (option A)) : option A :=
  head (omap id col).

(** [GroupBy.first]: column by column, the first non-null entry. *)
Definition first (rows : list Row) : Row :=
  {| row_trip_id := first_valid (row_trip_id <$> rows);
     row_update_time := first_valid (row_update_time <$> rows);
     row_longitude := first_valid (row_longitude <$> rows);
     row_latitude := first_valid (row_latitude <$> rows) |}.

Definition resample_60s_first (df : list (Z * Row)) : list (Z * Row) :=
  match index_min df, index_max df with
  | Some lo, Some hi =>
      (λ b, (b, first ((filter (in_bin b) df).*2))) <$> bin_labels lo hi
  | _, _ => []
  end.

(** A label is covered by a frame when it is a minute boundary lying between
    the bins of two of its rows. *)
Definition covers {A} (df : list (Z * A)) (b : Z) : Prop :=
  b `mod` 60 = 0 ∧
  (∃ x, x ∈ df ∧ floor_60s x.1 ≤ b) ∧ (∃ y, y ∈ df ∧ b ≤ floor_60s y.1).

(** *** geopandas *)

(** [gpd.points_from_xy] *)
Definition points_from_xy (x y : option Q) : option Point :=
  match x, y with
  | Some x, Some y => Some (x, y)
  | _, _ => None
  end.

(** ** Exceptions, files, and the monads that thread them *)

Inductive exn :=
  | ValueError (msg : string)          (* shapely: too few coordinates *)
  | FileNotFoundError (path : string)  (* imageio.imread on a missing file *)
  | PlotError (frame : Z)              (* drawing or tile fetch failed *)
  | AttributeError (name : string)     (* a frame without that column *)
  | RuntimeError (msg : string).       (* imageio: nothing to write *)

(** Code that may raise. *)
Definition result (A : Type) : Type := exn + A.

Global Instance result_ret : MRet result := λ A x, inr x.
Global Instance result_bind : MBind result := λ A B f m,
  match m with
  | inl e => inl e
  | inr x => f x
  end.

Definition raise {A} (e : exn) : result A := inl e.

Section Files.

(** Decoded picture contents (a pixel array). *)
Variable image : Type.

Inductive file :=
  | Png (img : image)
  | Gif (frames : list image) (fps : Z).

(** Code that reads and writes files and may raise; what was written before
    an exception stays written. *)
Definition io (A : Type) : Type :=
  gmap string file → gmap string file * result A.

Global Instance io_ret : MRet io := λ A x fs, (fs, inr x).
Global Instance io_bind : MBind io := λ A B f m fs,
  match m fs with
  | (fs', inl e) => (fs', inl e)
  | (fs', inr x) => f x fs'
  end.

Definition lift {A} (r : result A) : io A := λ fs, (fs, r).

(** [plt.savefig(path)]: creates or overwrites the file. *)
Definition savefig (path : string) (img : image) : io unit :=
  λ fs, (<[path := Png img]> fs, inr tt).

(** [imageio.imread(path)]: the picture of a still, the first frame of an
    animation; a missing file raises, and so does a file without a frame. *)
Definition imread (path : string) : io image :=
  λ fs, (fs,
         match fs !! path with
         | Some (Png img) => inr img
         | Some (Gif (img :: _) _) => inr img
         | Some (Gif [] _) => inl (ValueError path)
         | None => inl (FileNotFoundError path)
         end).

(** [imageio.mimsave(path, images, fps=fps)]: opens the file, appends the
    images, and refuses to have written none. *)
Definition mimsave (path : string) (images : list image) (fps : Z) : io unit :=
  λ fs, (<[path := Gif images fps]> fs,
         match images with
         | [] => inl (RuntimeError "Zero images were written.")
         | _ => inr tt
         end).

(** A [for] loop whose body has effects. *)
Fixpoint for_each {A} (l : list A) (body : A → io unit) : io unit :=
  match l with
  | [] => mret tt
  | x :: l' => body x;; for_each l' body
  end.

End Files.

Global Arguments Png {image} img.
Global Arguments Gif {image} frames fps.
Global Arguments lift {image A} r.
Global Arguments savefig {image} path img.
Global Arguments imread {image} path.
Global Arguments mimsave {image} path images fps.
Global Arguments for_each {image A} l body.

(** ** Timestamp formatting *)

Definition digit (d : Z) : ascii := ascii_of_nat (48 + Z.to_nat d).

(** [%H] and [%M]: two decimal digits, zero padded. *)
Definition two_digits (n : Z) : string :=
  String (digit (n `div` 10)) (String (digit (n `mod` 10)) EmptyString).

Definition hour (t : Z) : Z := (t `div` 3600) `mod` 24.
Definition minute (t : Z) : Z := (t `div` 60) `mod` 60.

(** [i.strftime("%H%M")] *)
Definition strftime_HM (t : Z) : string := two_digits (hour t) +:+ two_digits (minute t).

(** [i.strftime("%H:%M")] *)
Definition strftime_H_M (t : Z) : string :=
  two_digits (hour t) +:+ ":" +:+ two_digits (minute t).

(** [f'{path_images}/{i.strftime("%H%M")}.png'] *)
Definition frame_path (path_images : string) (i : Z) : string :=
  path_images +:+ "/" +:+ strftime_HM i +:+ ".png".

(** ** Shapes *)

(** A row of [shapes.txt]. *)
Record ShapePoint := {
  shape_id : Z;
  shape_pt_lon : Q;
  shape_pt_lat : Q
}.

(** [shapely.geometry.LineString(points)]: a lone point is refused. *)
Definition LineString (points : list Point) : result (list Point) :=
  match points with
  | [_] => raise (ValueError "LineStrings must have at least 2 coordinate tuples")
  | _ => mret points
  end.

(** The group keys of [groupby(['shape_id'])], which sorts them. *)
Definition group_keys (keys : list Z) : list Z := merge_sort Z.le (unique keys).

(** The rows of one group, in frame order. *)
Definition get_group {A} (key : Z) (col : list (Z * A)) : list A :=
  (filter (λ x, x.1 = key) col).*2.

(** [df_sampled.append(tmp)].  A frame under construction is [None] while it
    is the bare [pd.DataFrame()], which has neither rows nor columns. *)
Definition append (df : option (list (Z * Row))) (tmp : list (Z * Row))
    : option (list (Z * Row)) :=
  Some (default [] df ++ tmp).

(** [df_sampled.longitude], [df_sampled.latitude]: the columns, if any. *)
Definition coordinate_columns (df : option (list (Z * Row)))
    : result (list (Z * Row)) :=
  match df with
  | None => raise (AttributeError "longitude")
  | Some rows => mret rows
  end.

Section Pipeline.

Context {sorter : IndexSort}.

(** The EPSG:4326 to EPSG:3857 transform of pyproj. *)
Variable proj : Point → Point.

(** [gdf.to_crs(epsg=3857)] on a point column. *)
Definition to_crs_points (gdf : list (Z * GeoRow)) : list (Z * GeoRow) :=
  (λ x, (x.1, {| attrs := attrs x.2; geometry := proj <$> geometry x.2 |})) <$> gdf.

(** ** Position Normalizer: [preprocessing_positions]

    Returns the caller's [df] object as the call leaves it, and the
    GeoDataFrame or the exception raised. *)
Definition preprocessing_positions (df : DataFrame)
    : DataFrame * result (list (Z * GeoRow)) :=
  (* df['update_datetime'] = pd.to_datetime(df['update_time'], unit = 's') *)
  let col := to_datetime <$> (update_time <$> records df) in
  let caller := {| records := records df; update_datetime := Some col |} in
  (* df['update_datetime'] = df['update_datetime'] + pd.offsets.Hour(-7) *)
  let col := (λ t, t + Hour (-7)) <$> col in
  let caller := {| records := records caller; update_datetime := Some col |} in
  (* df = df.set_index('update_datetime'); df = df.sort_index() *)
  let df := set_index col (records caller) in
  let df := sort_index df in
  (* for trip in df.trip_id.unique(): ... df_sampled.append(tmp) *)
  let df_sampled :=
    foldl (λ df_sampled trip,
             let tmp := resample_60s_first (trip_rows trip df) in
             append df_sampled tmp)
          None (unique ((row_trip_id ∘ snd) <$> df)) in
  (caller,
   (* gpd.GeoDataFrame(df_sampled, geometry=gpd.points_from_xy(...)) *)
   rows ← coordinate_columns df_sampled;
   let gdf :=
     (λ x, (x.1, {| attrs := x.2;
                    geometry := points_from_xy (row_longitude x.2) (row_latitude x.2) |}))
     <$> rows in
   let gdf := to_crs_points gdf in
   mret (sort_index gdf)).


(** *** Vocabulary for the properties of the normalizer *)

(** The value of [update_datetime] for a record: display time. *)
Definition local_time (r : PositionRecord) : Z :=
  to_datetime (update_time r) + Hour (-7).

(** The minute bucket of a record, named by its left edge. *)
Definition sample_timestamp (r : PositionRecord) : Z := floor_60s (local_time r).

(** Record [r] is an observation of trip [T] in bucket [b]. *)
Definition in_bucket (T b : Z) (r : PositionRecord) : Prop :=
  trip_id r = T ∧ sample_timestamp r = b.

(** The frame row of a record once [update_datetime] is the index. *)
Definition entry (r : PositionRecord) : Z * Row := (local_time r, to_row r).

(** The Sampled Position made from record [r]. *)
Definition sampled_position (r : PositionRecord) : Z * GeoRow :=
  (sample_timestamp r,
   {| attrs := to_row r; geometry := Some (proj (longitude r, latitude r)) |}).

(** The row an empty bin leaves in the output: no trip, no coordinates. *)
Definition placeholder (b : Z) : Z * GeoRow :=
  (b, {| attrs := nan_row; geometry := None |}).

(** The output rows that carry trip [T] at timestamp [b]. *)
Definition rows_of_trip (T b : Z) (gdf : list (Z * GeoRow)) : list (Z * GeoRow) :=
  filter (λ x, x.1 = b ∧ row_trip_id (attrs x.2) = Some T) gdf.

(** Bucket [b] is a gap of trip [T]: a minute boundary with earlier and
    later observations of the trip but none of its own. *)
Definition gap (rs : list PositionRecord) (T b : Z) : Prop :=
  b `mod` 60 = 0 ∧
  (∃ r, r ∈ rs ∧ trip_id r = T ∧ sample_timestamp r < b) ∧
  (∃ r, r ∈ rs ∧ trip_id r = T ∧ b < sample_timestamp r) ∧
  (∀ r, r ∈ rs → ¬ in_bucket T b r).

(** Cells 3 and 6: [df = pd.read_sql(...)], [df = df.drop_duplicates()],
    [gdf_pos = preprocessing_positions(df)]. *)
Definition load_positions (table : list PositionRecord) : DataFrame :=
  drop_duplicates (read_sql table).

Definition normalize (table : list PositionRecord) : result (list (Z * GeoRow)) :=
  (preprocessing_positions (load_positions table)).2.

(** The reading "no data point, no mark": the output has a record for a
    trip at a timestamp exactly when the trip was observed in that bucket,
    and it has no other record. *)
Definition no_data_no_mark (df : DataFrame) : Prop :=
  ∀ out, (preprocessing_positions df).2 = inr out →
  (∀ r, r ∈ records df →
     ∃ g, (sample_timestamp r, g) ∈ out ∧ row_trip_id (attrs g) = Some (trip_id r)) ∧
  (∀ b g, (b, g) ∈ out →
     ∃ r, r ∈ records df ∧ sample_timestamp r = b ∧
          row_trip_id (attrs g) = Some (trip_id r)).

(** The reading "immutable once ingested": the call leaves the caller's
    frame as it found it. *)
Definition leaves_input_unchanged (df : DataFrame) : Prop :=
  (preprocessing_positions df).1 = df.

(** ** Route Geometry Builder: [preprocessing_lines] *)

(** [gdf.to_crs(epsg=3857)] on a line column: every vertex is transformed. *)
Definition to_crs_lines (gdf : list (Z * list Point)) : list (Z * list Point) :=
  (λ x : Z * list Point, (x.1, proj <$> x.2)) <$> gdf.

Definition preprocessing_lines (df : list ShapePoint) : result (list (Z * list Point)) :=
  (* gpd.GeoDataFrame(df, geometry=gpd.points_from_xy(df.shape_pt_lon, df.shape_pt_lat)) *)
  let tmp := (λ p, (shape_id p, (shape_pt_lon p, shape_pt_lat p))) <$> df in
  (* tmp.groupby(['shape_id'])['geometry'].apply(lambda x: LineString(x.tolist())) *)
  gdf ← mapM (λ key, line ← LineString (get_group key tmp); mret (key, line))
             (group_keys tmp.*1);
  mret (to_crs_lines gdf).

(** *** Vocabulary for the properties of the builder *)

(** The source points of shape [s], in file order. *)
Definition shape_points (s : Z) (df : list ShapePoint) : list Point :=
  (λ p, (shape_pt_lon p, shape_pt_lat p)) <$> filter (λ p, shape_id p = s) df.

(** Shape [s] occurs in the file with fewer than two points. *)
Definition too_short (df : list ShapePoint) (s : Z) : Prop :=
  s ∈ shape_id <$> df ∧ (List.length (shape_points s df) < 2)%nat.

(** The reading "a short shape is skipped, the batch goes on". *)
Definition short_shapes_are_skipped (df : list ShapePoint) : Prop :=
  ∀ s, too_short df s →
    ∃ gdf, preprocessing_lines df = inr gdf ∧ (s ∉ gdf.*1) ∧
           ∀ s', s' ∈ shape_id <$> df → ¬ too_short df s' → s' ∈ gdf.*1.

(** ** Frame Renderer and Animation Compositor *)

Variable image : Type.

(** Everything [create_maps] draws for one frame before saving it: axis
    limits, the route layer, the positions of the frame, the basemap and the
    clock label.  It may raise. *)
Variable plot_frame :
  Z * Z → Z * Z → list (Z * list Point) → list (Z * GeoRow) → string → result image.

(** The notebook's globals. *)
Variable gdf_lines : list (Z * list Point).
Variable gdf_pos : list (Z * GeoRow).

(** [gdf_pos.loc[i]] *)
Definition loc (i : Z) (gdf : list (Z * GeoRow)) : list (Z * GeoRow) :=
  filter (λ x, x.1 = i) gdf.

Definition create_maps (xlim ylim : Z * Z) (path_images : string) : io image unit :=
  for_each (unique gdf_pos.*1) (λ i,
    fig ← lift (plot_frame xlim ylim gdf_lines (loc i gdf_pos) (strftime_H_M i));
    savefig (frame_path path_images i) fig).

Definition create_gif (path_images path_gif : string) : io image unit :=
  list_of_images ← mapM (λ i, imread (frame_path path_images i)) (unique gdf_pos.*1);
  mimsave path_gif list_of_images 10.

(** The reading "n timestamps, n images": a run into an empty output
    location leaves as many files as there are distinct timestamps, one
    under the code of each. *)
Definition one_image_per_timestamp (xlim ylim : Z * Z) (path_images : string) : Prop :=
  ∀ fs', create_maps xlim ylim path_images ∅ = (fs', inr tt) →
    size fs' = List.length (unique gdf_pos.*1) ∧
    ∀ i, i ∈ gdf_pos.*1 → is_Some (fs' !! frame_path path_images i).

(** *** The configuration cell and the calls *)

Definition ylim_greater_portland : Z * Z := (5665000, 5725000).
Definition xlim_greater_portland : Z * Z := (-13707000, -13615000).
Definition ylim_downtown : Z * Z := (5698000, 5708000).
Definition xlim_downtown : Z * Z := (-13660000, -13650000).
Definition path_images_greater_portland : string := "data/greater_portland".
Definition path_images_downtown : string := "data/downtown".

(** Cells 11 to 15, in order. *)
Definition draw_and_animate : io image unit :=
  create_maps xlim_greater_portland ylim_greater_portland path_images_greater_portland;;
  create_maps xlim_downtown ylim_downtown path_images_downtown;;
  create_gif path_images_downtown "data/greater_portland.gif";;
  create_gif path_images_downtown "data/downtown.gif".

End Pipeline.

Global Arguments create_maps {image} plot_frame gdf_lines gdf_pos xlim ylim path_images.
Global Arguments create_gif {image} gdf_pos path_images path_gif.
Global Arguments draw_and_animate {image} plot_frame gdf_lines gdf_pos.
Global Arguments one_image_per_timestamp {image} plot_frame gdf_lines gdf_pos
  xlim ylim path_images.


(** ** Sample inputs *)

Definition position (trip t lon lat : Z) : PositionRecord :=
  {| trip_id := trip; update_time := t;
     longitude := inject_Z lon; latitude := inject_Z lat |}.

Definition shape_point (s lon lat : Z) : ShapePoint :=
  {| shape_id := s; shape_pt_lon := inject_Z lon; shape_pt_lat := inject_Z lat |}.

(** A stand-in for the projection. *)
Definition double (p : Point) : Point := (Qmult (inject_Z 2) p.1, Qmult (inject_Z 2) p.2).

(** A stand-in for a picture: what it was drawn from. *)
Record sketch := {
  sketch_xlim : Z * Z;
  sketch_ylim : Z * Z;
  sketch_positions : nat;
  sketch_label : string
}.

Definition sketch_frame (xlim ylim : Z * Z) (lines : list (Z * list Point))
    (rows : list (Z * GeoRow)) (label : string) : result sketch :=
  inr {| sketch_xlim := xlim; sketch_ylim := ylim;
         sketch_positions := List.length rows; sketch_label := label |}.

(** 07:00:00 display time is Unix time 50400 (14:00:00 UTC, day 0). *)
Definition one_trip_with_gap : list PositionRecord :=
  [position 7 50400 1 2; position 7 50520 3 4].

Definition two_trips : list PositionRecord :=
  [position 7 50410 5 6; position 8 50470 9 9; position 7 50400 1 2;
   position 7 50530 3 4].

(** The same minute of two consecutive days. *)
Definition two_days : list PositionRecord :=
  [position 7 50400 1 2; position 8 136800 3 4].

Definition one_stray_point : list ShapePoint :=
  [shape_point 1 0 0; shape_point 2 1 1; shape_point 2 2 2].

Definition two_routes : list ShapePoint :=
  [shape_point 2 5 5; shape_point 1 9 9; shape_point 2 3 3; shape_point 1 4 4;
   shape_point 2 5 5].

(** The routes of [two_routes]: each shape's points in file order. *)
Definition two_routes_lines : list (Z * list Point) :=
  [(1, [double (inject_Z 9, inject_Z 9); double (inject_Z 4, inject_Z 4)]);
   (2, [double (inject_Z 5, inject_Z 5); double (inject_Z 3, inject_Z 3);
        double (inject_Z 5, inject_Z 5)])].

(** The Sampled Positions of [two_trips] and of [two_days]. *)
Definition two_trips_sampled : list (Z * GeoRow) :=
  [sampled_position double (position 7 50400 1 2);
   placeholder 25260;
   sampled_position double (position 8 50470 9 9);
   sampled_position double (position 7 50530 3 4)].

Definition two_days_sampled : list (Z * GeoRow) :=
  [sampled_position double (position 7 50400 1 2);
   sampled_position double (position 8 136800 3 4)].

(** The file systems left by the renderer alone and by cells 11 to 15, each
    started on an empty one, over [two_trips_sampled]. *)
Definition two_trips_frames : gmap string (file sketch) :=
  (create_maps sketch_frame two_routes_lines two_trips_sampled
     xlim_downtown ylim_downtown path_images_downtown ∅).1.

Definition two_trips_run : gmap string (file sketch) :=
  (draw_and_animate sketch_frame two_routes_lines two_trips_sampled ∅).1.

(** A drawing routine that raises on the 07:01 frame. *)
Definition sketch_frame_but_0701 (xlim ylim : Z * Z) (lines : list (Z * list Point))
    (rows : list (Z * GeoRow)) (label : string) : result sketch :=
  if decide (label = "07:01") then inl (PlotError 25260)
  else sketch_frame xlim ylim lines rows label.

(** An output location holding the 07:00 frame only. *)
Definition first_frame_only : gmap string (file sketch) :=
  {[ "data/downtown/0700.png" :=
       Png {| sketch_xlim := xlim_downtown; sketch_ylim := ylim_downtown;
              sketch_positions := 1; sketch_label := "07:00" |} ]}.

(** * Properties *)

(** ** Lists *)

#[local] Set Warnings "-clear-no-such-hyp".

Lemma filter_all {A} (P : A → Prop) `{∀ x, Decision (P x)} (l : list A) :
  (∀ x, x ∈ l → P x) → filter P l = l.
Proof.
  induction l as [|x l IH]; intros HP; [done|].
  rewrite filter_cons_True by (apply HP; left).
  f_equal. apply IH. intros y Hy. apply HP. by right.
Qed.

Lemma filter_none {A} (P : A → Prop) `{∀ x, Decision (P x)} (l : list A) :
  (∀ x, x ∈ l → ¬ P x) → filter P l = [].
Proof.
  induction l as [|x l IH]; intros HP; [done|].
  rewrite filter_cons_False by (apply HP; left).
  apply IH. intros y Hy. apply HP. by right.
Qed.

(** A permutation of a list of at most one element is that list. *)
Lemma Permutation_singleton_r_or_nil {A} (P : A → Prop) `{∀ x, Decision (P x)}
    (l : list A) (x : A) :
  l ≡ₚ filter P [x] → l = filter P [x].
Proof.
  rewrite filter_cons, filter_nil. destruct (decide (P x)).
  - apply Permutation_singleton_r.
  - apply Permutation_nil_r.
Qed.

Section list_facts.
Context {A : Type} `{EqDecision A}.
Implicit Types l : list A.

Lemma elem_of_unique x l : x ∈ unique l ↔ x ∈ l.
Proof.
  revert x. induction l as [|y l IH]; intros x; simpl; [done|].
  rewrite !elem_of_cons, list_elem_of_filter, IH.
  destruct (decide (x = y)); naive_solver.
Qed.

Lemma NoDup_unique l : NoDup (unique l).
Proof.
  induction l as [|y l IH]; simpl; [constructor|].
  constructor.
  - rewrite list_elem_of_filter. naive_solver.
  - by apply NoDup_filter.
Qed.

Lemma unique_app l1 l2 :
  unique (l1 ++ l2) = unique l1 ++ filter (λ y, y ∉ l1) (unique l2).
Proof.
  induction l1 as [|x l1 IH]; simpl.
  - symmetry. apply filter_all. intros y _. apply not_elem_of_nil.
  - f_equal. rewrite IH, filter_app. f_equal.
    rewrite list_filter_filter. apply list_filter_iff.
    intros y. rewrite elem_of_cons. tauto.
Qed.

(** A value that occurred before adds nothing. *)
Lemma unique_insert_dup l1 l2 x :
  x ∈ l1 → unique (l1 ++ x :: l2) = unique (l1 ++ l2).
Proof.
  intros Hx. rewrite !unique_app. f_equal. simpl.
  rewrite filter_cons_False by tauto.
  rewrite list_filter_filter. apply list_filter_iff.
  intros y. split; [tauto|]. intros Hy. split; [done|]. by intros ->.
Qed.

End list_facts.

(** An accumulating loop of [append]s gathers the slices in order; it leaves
    the bare frame only when it never runs. *)
Lemma foldl_append {A} (f : A → list (Z * Row)) (l : list A)
    (acc : option (list (Z * Row))) :
  foldl (λ acc x, append acc (f x)) acc l =
  match l with
  | [] => acc
  | _ => Some (default [] acc ++ l ≫= f)
  end.
Proof.
  revert acc. induction l as [|x l IH]; intros acc; [done|].
  cbn [foldl]. rewrite IH, bind_cons. unfold append.
  destruct l as [|y l]; [by rewrite app_nil_r|].
  cbn [default]. by rewrite app_assoc.
Qed.

Lemma filter_bind {A B} (P : B → Prop) `{∀ y, Decision (P y)}
    (f : A → list B) (l : list A) :
  filter P (l ≫= f) = l ≫= (λ x, filter P (f x)).
Proof.
  induction l as [|x l IH]; [done|].
  by rewrite !bind_cons, filter_app, IH.
Qed.

Lemma bind_none {A B} (g : A → list B) (l : list A) :
  (∀ y, y ∈ l → g y = []) → l ≫= g = [].
Proof.
  induction l as [|x l IH]; intros Hg; [done|].
  rewrite bind_cons, Hg by left. apply IH. intros y Hy. apply Hg. by right.
Qed.

(** In a duplicate-free list, a bind whose other branches are empty is the
    one branch. *)
Lemma bind_only {A B} (g : A → list B) (l : list A) (x : A) :
  NoDup l → x ∈ l → (∀ y, y ∈ l → y ≠ x → g y = []) → l ≫= g = g x.
Proof.
  induction 1 as [|y l Hy Hnd IH]; intros Hx Hg; [by apply elem_of_nil in Hx|].
  rewrite bind_cons. apply elem_of_cons in Hx as [<-|Hx].
  - rewrite bind_none; [by rewrite app_nil_r|].
    intros z Hz. apply Hg; [by right|]. by intros ->.
  - rewrite Hg, IH; [done..| |by left|by intros ->].
    intros z Hz. apply Hg. by right.
Qed.

Lemma filter_fmap {A B} (f : A → B) (P : B → Prop) `{∀ y, Decision (P y)}
    (l : list A) :
  filter P (f <$> l) = f <$> filter (P ∘ f) l.
Proof.
  induction l as [|x l IH]; [done|].
  rewrite fmap_cons, !filter_cons, IH. simpl. by destruct (decide (P (f x))).
Qed.

Lemma StronglySorted_filter {A} (R : relation A) (P : A → Prop)
    `{∀ x, Decision (P x)} (l : list A) :
  StronglySorted R l → StronglySorted R (filter P l).
Proof.
  induction 1 as [|x l Hl IH Hx]; [constructor|].
  rewrite filter_cons. destruct (decide (P x)); [|done].
  constructor; [done|]. rewrite Forall_forall in Hx |- *.
  intros y [_ Hy]%list_elem_of_filter. by apply Hx.
Qed.

(** ** Resampling *)

(** Linear arithmetic with division and remainder by constants. *)
Ltac div_lia := intros; Z.to_euclidean_division_equations; lia.

Lemma floor_60s_bounds t : floor_60s t ≤ t < floor_60s t + 60.
Proof. unfold floor_60s. div_lia. Qed.

Lemma floor_60s_aligned t : floor_60s t `mod` 60 = 0.
Proof. unfold floor_60s. div_lia. Qed.

(** The bin of a label is fixed by absolute time alone. *)
Lemma floor_60s_unique b t : b `mod` 60 = 0 → b ≤ t < b + 60 → floor_60s t = b.
Proof. unfold floor_60s. div_lia. Qed.

Lemma floor_60s_mono t1 t2 : t1 ≤ t2 → floor_60s t1 ≤ floor_60s t2.
Proof. unfold floor_60s. div_lia. Qed.

Lemma in_bin_floor {A} b (x : Z * A) :
  b `mod` 60 = 0 → in_bin b x ↔ floor_60s x.1 = b.
Proof.
  intros Hb. unfold in_bin. split.
  - by apply floor_60s_unique.
  - intros <-. apply floor_60s_bounds.
Qed.

Lemma elem_of_bin_labels lo hi b :
  lo ≤ hi →
  b ∈ bin_labels lo hi ↔ b `mod` 60 = 0 ∧ floor_60s lo ≤ b ≤ floor_60s hi.
Proof.
  intros Hle. apply floor_60s_mono in Hle. unfold bin_labels.
  rewrite list_elem_of_fmap. setoid_rewrite elem_of_seq.
  unfold floor_60s in *. split.
  - intros (k & -> & Hk). div_lia.
  - intros [Hb Hr].
    exists (Z.to_nat ((b - lo `div` 60 * 60) `div` 60)). div_lia.
Qed.

Lemma NoDup_bin_labels lo hi : NoDup (bin_labels lo hi).
Proof.
  unfold bin_labels. apply NoDup_fmap_2; [|apply NoDup_seq].
  intros k1 k2. lia.
Qed.

Lemma foldr_min_spec {A} (df : list (Z * A)) (a : Z) :
  let m := foldr (λ y m, Z.min y.1 m) a df in
  m ≤ a ∧ (∀ y, y ∈ df → m ≤ y.1) ∧ (m = a ∨ ∃ y, y ∈ df ∧ y.1 = m).
Proof.
  induction df as [|z df (IH1 & IH2 & IH3)]; simpl.
  - split; [lia|]. split; [by intros ? ?%elem_of_nil|by left].
  - split; [lia|]. split.
    + intros y Hy. apply elem_of_cons in Hy as [->|Hy]; [lia|].
      specialize (IH2 y Hy). lia.
    + destruct (Z.min_spec z.1 (foldr (λ y m, Z.min y.1 m) a df)) as [[_ ->]|[_ ->]].
      * right. exists z. split; [left|done].
      * destruct IH3 as [?|(y & ? & ?)]; [by left|]. right. exists y.
        split; [by right|done].
Qed.

Lemma foldr_max_spec {A} (df : list (Z * A)) (a : Z) :
  let m := foldr (λ y m, Z.max y.1 m) a df in
  a ≤ m ∧ (∀ y, y ∈ df → y.1 ≤ m) ∧ (m = a ∨ ∃ y, y ∈ df ∧ y.1 = m).
Proof.
  induction df as [|z df (IH1 & IH2 & IH3)]; simpl.
  - split; [lia|]. split; [by intros ? ?%elem_of_nil|by left].
  - split; [lia|]. split.
    + intros y Hy. apply elem_of_cons in Hy as [->|Hy]; [lia|].
      specialize (IH2 y Hy). lia.
    + destruct (Z.max_spec z.1 (foldr (λ y m, Z.max y.1 m) a df)) as [[_ ->]|[_ ->]].
      * destruct IH3 as [?|(y & ? & ?)]; [by left|]. right. exists y.
        split; [by right|done].
      * right. exists z. split; [left|done].
Qed.

Lemma index_min_spec {A} (df : list (Z * A)) lo :
  index_min df = Some lo → (∀ x, x ∈ df → lo ≤ x.1) ∧ ∃ x, x ∈ df ∧ x.1 = lo.
Proof.
  destruct df as [|x df]; [done|]. simpl. intros [= <-].
  destruct (foldr_min_spec df x.1) as (H1 & H2 & H3). split.
  - intros y Hy. apply elem_of_cons in Hy as [->|Hy]; [done|by apply H2].
  - destruct H3 as [->|(y & ? & ?)]; [exists x|exists y]; split; try done;
      [left|by right].
Qed.

Lemma index_max_spec {A} (df : list (Z * A)) hi :
  index_max df = Some hi → (∀ x, x ∈ df → x.1 ≤ hi) ∧ ∃ x, x ∈ df ∧ x.1 = hi.
Proof.
  destruct df as [|x df]; [done|]. simpl. intros [= <-].
  destruct (foldr_max_spec df x.1) as (H1 & H2 & H3). split.
  - intros y Hy. apply elem_of_cons in Hy as [->|Hy]; [done|by apply H2].
  - destruct H3 as [->|(y & ? & ?)]; [exists x|exists y]; split; try done;
      [left|by right].
Qed.

Lemma covers_bin_labels {A} (df : list (Z * A)) lo hi b :
  index_min df = Some lo → index_max df = Some hi →
  b ∈ bin_labels lo hi ↔ covers df b.
Proof.
  intros [Hlo (x & Hx & Hxlo)]%index_min_spec [Hhi (y & Hy & Hyhi)]%index_max_spec.
  rewrite elem_of_bin_labels by (rewrite <-Hxlo; auto).
  unfold covers. split.
  - intros (? & ? & ?). split; [done|]. split; [exists x|exists y]; by subst.
  - intros (? & (x' & Hx' & ?) & (y' & Hy' & ?)). split; [done|].
    pose proof (floor_60s_mono _ _ (Hlo _ Hx')).
    pose proof (floor_60s_mono _ _ (Hhi _ Hy')). lia.
Qed.

(** The resampled frame has exactly one row per covered label, empty bin or
    not. *)
Lemma elem_of_resample_60s_first df b row :
  (b, row) ∈ resample_60s_first df ↔
  covers df b ∧ row = first (filter (in_bin b) df).*2.
Proof.
  unfold resample_60s_first.
  destruct (index_min df) as [lo|] eqn:Hlo, (index_max df) as [hi|] eqn:Hhi;
    try (destruct df; discriminate).
  - rewrite list_elem_of_fmap. rewrite <-(covers_bin_labels df lo hi) by done.
    split; [by intros (? & [= -> ->] & ?)|]. intros [? ->]. by exists b.
  - destruct df; [|done]. split; [by intros ?%elem_of_nil|].
    by intros [(_ & (? & ?%elem_of_nil & _) & _) _].
Qed.

Lemma filter_label_fmap {B} (g : Z → B) (l : list Z) (b : Z) :
  NoDup l → b ∈ l →
  filter (λ x : Z * B, x.1 = b) ((λ b', (b', g b')) <$> l) = [(b, g b)].
Proof.
  induction 1 as [|c l Hc Hnd IH]; intros Hb; [by apply elem_of_nil in Hb|].
  rewrite fmap_cons. apply elem_of_cons in Hb as [->|Hb].
  - rewrite filter_cons_True by done. f_equal. apply filter_none.
    intros x (b' & -> & Hb')%list_elem_of_fmap. simpl. by intros ->.
  - rewrite filter_cons_False; [by apply IH|]. simpl. by intros ->.
Qed.

Lemma filter_label_resample_60s_first df b :
  covers df b →
  filter (λ x, x.1 = b) (resample_60s_first df) =
  [(b, first (filter (in_bin b) df).*2)].
Proof.
  intros Hb. unfold resample_60s_first.
  destruct (index_min df) as [lo|] eqn:Hlo, (index_max df) as [hi|] eqn:Hhi;
    try (destruct df; discriminate).
  - apply (filter_label_fmap (λ b, first (filter (in_bin b) df).*2));
      [apply NoDup_bin_labels|]. by apply (covers_bin_labels df).
  - destruct df; [|done]. by destruct Hb as (_ & (? & ?%elem_of_nil & _) & _).
Qed.

(** ** Grouping by label *)

(** The distinct values of an ascending list ascend strictly. *)
Lemma unique_sorted (l : list Z) :
  StronglySorted Z.le l → StronglySorted Z.lt (unique l).
Proof.
  induction 1 as [|x l Hl IH Hx]; [constructor|].
  cbn [unique]. constructor; [by apply StronglySorted_filter|].
  rewrite Forall_forall in Hx |- *.
  intros y [Hne Hy]%list_elem_of_filter. rewrite elem_of_unique in Hy.
  specialize (Hx y Hy). lia.
Qed.

Lemma unique_index_sorted {A} (df : list (Z * A)) :
  Sorted index_le df → StronglySorted Z.lt (unique df.*1).
Proof.
  intros Hdf%Sorted_StronglySorted; [|apply _]. apply unique_sorted.
  induction Hdf as [|x df _ IH Hx]; [constructor|].
  rewrite fmap_cons. constructor; [done|].
  rewrite Forall_fmap. eapply Forall_impl; [done|]. by intros y.
Qed.

Lemma bind_ext_elem {A B} (f g : A → list B) (l : list A) :
  (∀ x, x ∈ l → f x = g x) → l ≫= f = l ≫= g.
Proof.
  induction l as [|x l IH]; intros Hfg; [done|].
  rewrite !bind_cons, Hfg by left. f_equal. apply IH.
  intros y Hy. apply Hfg. by right.
Qed.

(** Cutting a list by the distinct values of a key and gluing the pieces
    gives the list back, up to order. *)
Lemma bind_groups {A K} `{EqDecision K} (key : A → K) (keys : list K) (l : list A) :
  NoDup keys → (∀ x, x ∈ l → key x ∈ keys) →
  keys ≫= (λ k, filter (λ x, key x = k) l) ≡ₚ l.
Proof.
  intros Hnd. revert l. induction Hnd as [|k keys Hk Hnd IH]; intros l Hl.
  - destruct l as [|x l]; [done|].
    exfalso. apply (not_elem_of_nil (key x)), Hl. left.
  - rewrite bind_cons.
    rewrite <-(filter_app_complement (λ x, key x = k) l) at 2.
    f_equiv.
    transitivity (keys ≫= (λ k', filter (λ x, key x = k')
                                   (filter (λ x, ¬ key x = k) l))).
    + erewrite bind_ext_elem; [reflexivity|]. intros k' Hk'. cbv beta.
      rewrite list_filter_filter. apply list_filter_iff.
      intros x. split; [|tauto]. intros Hx. split; [done|]. congruence.
    + apply IH. intros x [Hx Hin]%list_elem_of_filter.
      specialize (Hl x Hin). apply elem_of_cons in Hl as [?|?]; done.
Qed.

(** ** Position Normalizer *)

Section normalizer_facts.
Context {sorter : IndexSort} (proj : Point → Point).
Implicit Types (rs : list PositionRecord) (r : PositionRecord) (T b : Z).

Local Abbreviation frame rs := (sort_index (entry <$> rs)).
Local Abbreviation slice rs T := (trip_rows (Some T) (frame rs)).
Local Abbreviation geo := (λ x : Z * Row,
  (x.1, {| attrs := x.2;
           geometry := proj <$> points_from_xy (row_longitude x.2) (row_latitude x.2) |})).

Lemma set_index_entries rs :
  set_index ((λ t, t + Hour (-7)) <$> (to_datetime <$> (update_time <$> rs))) rs
  = entry <$> rs.
Proof. unfold set_index. induction rs as [|r rs IH]; simpl; by f_equal. Qed.

(** The rows the loop gathers and the lines after it turn into the
    GeoDataFrame, as one expression. *)
Local Abbreviation sampled rs :=
  (sort_index (geo <$>
    (unique ((row_trip_id ∘ snd) <$> frame rs) ≫=
       λ trip, resample_60s_first (trip_rows trip (frame rs))))).

Lemma elem_of_frame rs x : x ∈ frame rs ↔ ∃ r, r ∈ rs ∧ x = entry r.
Proof.
  rewrite sort_index_Permutation, list_elem_of_fmap. naive_solver.
Qed.

Lemma elem_of_trips rs trip :
  trip ∈ unique ((row_trip_id ∘ snd) <$> frame rs) ↔
  ∃ r, r ∈ rs ∧ trip = Some (trip_id r).
Proof.
  rewrite elem_of_unique, list_elem_of_fmap. split.
  - intros (x & -> & (r & Hr & ->)%elem_of_frame). by exists r.
  - intros (r & Hr & ->). exists (entry r). split; [done|].
    apply elem_of_frame. by exists r.
Qed.

(** The call raises on a table without records and returns otherwise. *)
Lemma preprocessing_positions_run df :
  (preprocessing_positions proj df).2 =
  match records df with
  | [] => inl (AttributeError "longitude")
  | _ => inr (sampled (records df))
  end.
Proof.
  unfold preprocessing_positions. cbn [snd records].
  rewrite set_index_entries, foldl_append.
  destruct (records df) as [|r rs] eqn:Hrs.
  - rewrite fmap_nil.
    assert (sort_index (A := Row) [] = []) as ->
      by (apply Permutation_nil_r, sort_index_Permutation).
    done.
  - assert (Some (trip_id r) ∈ unique ((row_trip_id ∘ snd) <$> frame (r :: rs)))
      as Htrip by (apply elem_of_trips; exists r; split; [left|done]).
    destruct (unique _) as [|trip trips]; [by apply elem_of_nil in Htrip|].
    cbn [default app coordinate_columns]. unfold to_crs_points.
    cbv [mbind mret result_bind result_ret].
    by rewrite <-list_fmap_compose.
Qed.

Lemma preprocessing_positions_inr df out :
  (preprocessing_positions proj df).2 = inr out → out = sampled (records df).
Proof.
  rewrite preprocessing_positions_run. destruct (records df); congruence.
Qed.

Lemma preprocessing_positions_returns df r :
  r ∈ records df →
  (preprocessing_positions proj df).2 = inr (sampled (records df)).
Proof.
  rewrite preprocessing_positions_run.
  destruct (records df); [by intros ?%elem_of_nil|done].
Qed.

Lemma elem_of_slice rs T x :
  x ∈ slice rs T ↔ ∃ r, r ∈ rs ∧ trip_id r = T ∧ x = entry r.
Proof.
  unfold trip_rows. rewrite list_elem_of_filter, elem_of_frame. unfold cell_eq.
  split.
  - intros [[_ HT] (r & Hr & ->)]. exists r. simpl in HT. naive_solver.
  - intros (r & Hr & <- & ->). split; [|by exists r]. simpl. eauto.
Qed.

Lemma elem_of_bin rs T b x :
  b `mod` 60 = 0 →
  x ∈ filter (in_bin b) (slice rs T) ↔ ∃ r, r ∈ rs ∧ in_bucket T b r ∧ x = entry r.
Proof.
  intros Hb. rewrite list_elem_of_filter, in_bin_floor, elem_of_slice by done.
  unfold in_bucket, sample_timestamp. split.
  - intros [Hx (r & Hr & HT & ->)]. by exists r.
  - intros (r & Hr & [HT Hx] & ->). split; [done|by exists r].
Qed.

Lemma covers_slice rs T b :
  covers (slice rs T) b ↔
  b `mod` 60 = 0 ∧
  (∃ r, r ∈ rs ∧ trip_id r = T ∧ sample_timestamp r ≤ b) ∧
  (∃ r, r ∈ rs ∧ trip_id r = T ∧ b ≤ sample_timestamp r).
Proof.
  unfold covers. setoid_rewrite elem_of_slice. unfold sample_timestamp.
  split.
  - intros (? & (x & (r1 & ? & ? & ->) & ?) & (y & (r2 & ? & ? & ->) & ?)).
    split; [done|]. split; [by exists r1|by exists r2].
  - intros (? & (r1 & ? & ? & ?) & (r2 & ? & ? & ?)).
    split; [done|]. split; [exists (entry r1)|exists (entry r2)]; eauto 6.
Qed.

Lemma sorted_bin rs T b :
  StronglySorted index_le (filter (in_bin b) (slice rs T)).
Proof.
  unfold trip_rows. do 2 apply StronglySorted_filter.
  apply Sorted_StronglySorted; [apply _|apply sort_index_Sorted].
Qed.

(** What [first] makes of one bin of one trip: NaN everywhere when the
    trip has no record there, otherwise the row of a record of the bin
    whose time is least. *)
Lemma bin_first rs T b :
  b `mod` 60 = 0 →
  (first (filter (in_bin b) (slice rs T)).*2 = nan_row ∧
   ∀ r, r ∈ rs → ¬ in_bucket T b r) ∨
  (∃ r, r ∈ rs ∧ in_bucket T b r ∧
        (∀ r', r' ∈ rs → in_bucket T b r' → update_time r ≤ update_time r') ∧
        first (filter (in_bin b) (slice rs T)).*2 = to_row r).
Proof.
  intros Hb. pose proof (sorted_bin rs T b) as Hsorted.
  pose proof (elem_of_bin rs T b) as Hbin.
  destruct (filter (in_bin b) (slice rs T)) as [|x B].
  - left. split; [done|]. intros r Hr Hin.
    eapply elem_of_nil, Hbin; eauto.
  - right. destruct (proj1 (Hbin x Hb)) as (r & Hr & Hin & ->); [left|].
    exists r. split; [done|]. split; [done|]. split; [|done].
    intros r' Hr' Hin'.
    assert (entry r' ∈ entry r :: B) as [Heq|HB]%elem_of_cons
      by (apply Hbin; eauto).
    + injection Heq as _ _ ->. lia.
    + apply StronglySorted_inv in Hsorted as [_ Hall].
      rewrite Forall_forall in Hall. specialize (Hall _ HB).
      unfold index_le, entry, local_time, to_datetime in Hall. simpl in Hall. lia.
Qed.

Lemma geo_to_row r :
  geo (sample_timestamp r, to_row r) = sampled_position proj r.
Proof. done. Qed.

Lemma geo_nan_row b : geo (b, nan_row) = placeholder b.
Proof. done. Qed.

Lemma elem_of_sampled rs y :
  y ∈ sampled rs ↔
  ∃ T b, (∃ r, r ∈ rs ∧ trip_id r = T) ∧
         covers (slice rs T) b ∧
         y = geo (b, first (filter (in_bin b) (slice rs T)).*2).
Proof.
  rewrite sort_index_Permutation, list_elem_of_fmap.
  setoid_rewrite list_elem_of_bind. setoid_rewrite elem_of_trips. split.
  - intros ([b row] & -> & trip & [Hcov ->]%elem_of_resample_60s_first
            & r & Hr & ->).
    exists (trip_id r), b. eauto.
  - intros (T & b & (r & Hr & <-) & Hcov & ->).
    eexists (b, _). split; [done|]. exists (Some (trip_id r)).
    split; [by apply elem_of_resample_60s_first|eauto].
Qed.

(** Rows cut from another trip never carry trip [T]. *)
Lemma slice_other_trip rs T T' x :
  T' ≠ T → x ∈ resample_60s_first (slice rs T') → row_trip_id x.2 ≠ Some T.
Proof.
  intros HT. destruct x as [b row].
  intros [(Hb & _) ->]%elem_of_resample_60s_first.
  unfold snd at 1.
  destruct (bin_first rs T' b Hb) as [[-> _]|(r & _ & [Hr _] & _ & ->)];
    [done|]. simpl. congruence.
Qed.

(** The rows of trip [T] at label [b] in the output: the single row that
    [first] cut from the bin. *)
Lemma rows_of_trip_sampled rs T b r :
  r ∈ rs → in_bucket T b r →
  rows_of_trip T b (sampled rs) =
  filter (λ x, x.1 = b ∧ row_trip_id (attrs x.2) = Some T)
    [geo (b, first (filter (in_bin b) (slice rs T)).*2)].
Proof.
  intros Hr [HT Hb].
  assert (covers (slice rs T) b) as Hcov.
  { apply covers_slice. rewrite <-Hb.
    split; [apply floor_60s_aligned|]. split; exists r; by rewrite Hb. }
  apply Permutation_singleton_r_or_nil.
  unfold rows_of_trip. rewrite sort_index_Permutation.
  rewrite (filter_fmap geo), filter_bind.
  rewrite (bind_only _ _ (Some T));
    [|apply NoDup_unique|apply elem_of_trips; exists r; by rewrite HT|].
  - rewrite <-(list_filter_filter_l _ (λ x, x.1 = b)) by (by intros ? [? _]).
    rewrite filter_label_resample_60s_first by done.
    rewrite !filter_cons, !filter_nil. simpl. by case_decide.
  - intros trip (r' & _ & ->)%elem_of_trips Hne. apply filter_none.
    intros x Hx [_ Htrip]. simpl in Htrip.
    eapply slice_other_trip; [|done..]. congruence.
Qed.

(** Every output row is the Sampled Position of a record or fills a gap. *)
Lemma sampled_rows_classified rs y :
  y ∈ sampled rs →
  (∃ r, r ∈ rs ∧ y = sampled_position proj r) ∨ (∃ T, gap rs T y.1).
Proof.
  intros (T & b & _ & Hcov & ->)%elem_of_sampled.
  destruct (bin_first rs T b (proj1 Hcov))
    as [[_ Hno]|(r & Hr & [_ <-] & _ & ->)].
  - right. exists T. simpl.
    apply covers_slice in Hcov
      as (Hb & (r1 & Hr1 & HT1 & Hle1) & (r2 & Hr2 & HT2 & Hle2)).
    split; [done|]. split; [|split; [|done]].
    + exists r1. split; [done|]. split; [done|].
      destruct (decide (sample_timestamp r1 = b)) as [Heq|]; [|lia].
      by destruct (Hno r1 Hr1).
    + exists r2. split; [done|]. split; [done|].
      destruct (decide (sample_timestamp r2 = b)) as [Heq|]; [|lia].
      by destruct (Hno r2 Hr2).
  - left. exists r. split; [done|]. apply geo_to_row.
Qed.

Lemma gap_fills_placeholder rs b :
  (∃ T, gap rs T b) → placeholder b ∈ sampled rs.
Proof.
  intros (T & Hb & (r1 & Hr1 & HT1 & Hlt1) & (r2 & Hr2 & HT2 & Hlt2) & Hno).
  apply elem_of_sampled. exists T, b. split; [by exists r1|].
  split.
  - apply covers_slice. split; [done|].
    split; [exists r1|exists r2]; repeat split; try done; lia.
  - destruct (bin_first rs T b Hb)
      as [[-> _]|(r & Hr & Hin & _)]; [done|by destruct (Hno r Hr)].
Qed.

Lemma placeholder_is_gap rs b :
  placeholder b ∈ sampled rs → ∃ T, gap rs T b.
Proof.
  intros (T & b' & _ & Hcov & Heq)%elem_of_sampled.
  destruct (bin_first rs T b' (proj1 Hcov))
    as [[Hrow Hno]|(r & _ & _ & _ & Hrow)];
    rewrite Hrow in Heq; [|done].
  injection Heq as <-. exists T.
  apply covers_slice in Hcov
    as (Hb & (r1 & Hr1 & HT1 & Hle1) & (r2 & Hr2 & HT2 & Hle2)).
  split; [done|]. split; [|split; [|done]].
  - exists r1. split; [done|]. split; [done|].
    destruct (decide (sample_timestamp r1 = b)) as [Heq|]; [|lia].
    by destruct (Hno r1 Hr1).
  - exists r2. split; [done|]. split; [done|].
    destruct (decide (sample_timestamp r2 = b)) as [Heq|]; [|lia].
    by destruct (Hno r2 Hr2).
Qed.

(** A row carries trip [T] at label [b] exactly when [T] was observed in
    bucket [b]. *)
Lemma trip_row_iff_observed rs T b :
  (∃ g, (b, g) ∈ sampled rs ∧ row_trip_id (attrs g) = Some T) ↔
  (∃ r, r ∈ rs ∧ in_bucket T b r).
Proof.
  split.
  - intros (g & (T' & b' & _ & Hcov & Heq)%elem_of_sampled & Htrip).
    destruct (bin_first rs T' b' (proj1 Hcov))
      as [[Hrow _]|(r & Hr & [HT' Hb'] & _ & Hrow)];
      rewrite Hrow in Heq; injection Heq as <- ->; simpl in Htrip; [done|].
    exists r. split; [done|]. split; congruence.
  - intros (r & Hr & Hin).
    assert (b `mod` 60 = 0) as Hb
      by (destruct Hin as [_ <-]; apply floor_60s_aligned).
    destruct (bin_first rs T b Hb)
      as [[_ Hno]|(r0 & Hr0 & [HT0 Hb0] & _ & Hrow)]; [by destruct (Hno r Hr)|].
    exists (sampled_position proj r0).2. split; [|simpl; congruence].
    apply elem_of_sampled. exists T, b. split; [by exists r0|].
    split.
    + apply covers_slice.
      split; [done|]. split; exists r0; rewrite Hb0; done.
    + rewrite Hrow, <-Hb0. done.
Qed.

(** The single row of an observed bucket. *)
Lemma observed_bucket_row rs T b :
  (∃ r, r ∈ rs ∧ in_bucket T b r) →
  ∃ r, r ∈ rs ∧ in_bucket T b r ∧
       (∀ r', r' ∈ rs → in_bucket T b r' → update_time r ≤ update_time r') ∧
       rows_of_trip T b (sampled rs) = [sampled_position proj r].
Proof.
  intros (r & Hr & Hin).
  assert (b `mod` 60 = 0) as Hb
    by (destruct Hin as [_ <-]; apply floor_60s_aligned).
  destruct (bin_first rs T b Hb)
    as [[_ Hno]|(r0 & Hr0 & Hin0 & Hmin & Hrow)]; [by destruct (Hno r Hr)|].
  exists r0. split; [done|]. split; [done|]. split; [done|].
  rewrite (rows_of_trip_sampled rs T b r) by done. rewrite Hrow.
  destruct Hin0 as [HT0 <-]. rewrite geo_to_row.
  rewrite filter_cons_True; [done|]. simpl. by rewrite HT0.
Qed.

(** Sample timestamps are minute boundaries. *)
Lemma sample_timestamps_on_the_minute df out :
  (preprocessing_positions proj df).2 = inr out →
  ∀ i, i ∈ out.*1 → i `mod` 60 = 0.
Proof.
  intros ->%preprocessing_positions_inr i (y & -> & Hy)%list_elem_of_fmap.
  by apply elem_of_sampled in Hy as (T & b & _ & [Hb _] & ->).
Qed.




(** C7.  Appending an exact duplicate of a record already in the table
    leaves the output of the pipeline (duplicate removal, then
    normalization) identical. *)
Theorem duplicate_record_changes_nothing table r :
  r ∈ table → normalize proj (table ++ [r]) = normalize proj table.
Proof.
  intros Hr. unfold normalize, load_positions, drop_duplicates, read_sql. simpl.
  by rewrite unique_insert_dup, app_nil_r.
Qed.

(** *** Further properties of the normalizer *)


(** X2.  The rows come back in ascending order of sample timestamp, so the
    distinct timestamps, which the renderer and the compositor walk
    through, ascend strictly. *)
Theorem sample_timestamps_ascend df out :
  (preprocessing_positions proj df).2 = inr out →
  Sorted index_le out ∧ StronglySorted Z.lt (unique out.*1).
Proof.
  intros ->%preprocessing_positions_inr.
  split; [|apply unique_index_sorted]; apply sort_index_Sorted.
Qed.

(** X3.  Every timestamp of the output is a minute boundary that lies
    between the buckets of two raw records of one trip: the output never
    reaches before the first or past the last observation. *)
Theorem sample_timestamps_within_observed_span df out :
  (preprocessing_positions proj df).2 = inr out →
  ∀ i, i ∈ out.*1 →
    i `mod` 60 = 0 ∧
    ∃ r1 r2, r1 ∈ records df ∧ r2 ∈ records df ∧ trip_id r1 = trip_id r2 ∧
             sample_timestamp r1 ≤ i ≤ sample_timestamp r2.
Proof.
  intros ->%preprocessing_positions_inr i (y & -> & Hy)%list_elem_of_fmap.
  apply elem_of_sampled in Hy as (T & b & _ & Hcov & ->).
  apply covers_slice in Hcov as (Hb & (r1 & Hr1 & HT1 & Hle1) & (r2 & Hr2 & HT2 & Hle2)).
  split; [done|]. exists r1, r2. simpl. repeat split; try done. congruence.
Qed.

(** X21.  Between two observations of a trip the output has a row at
    every minute boundary, observed or not: over the span of a trip the
    sample timestamps have no hole. *)
Theorem trip_span_has_a_row_every_minute df out r1 r2 b :
  (preprocessing_positions proj df).2 = inr out →
  r1 ∈ records df → r2 ∈ records df → trip_id r1 = trip_id r2 →
  b `mod` 60 = 0 → sample_timestamp r1 ≤ b ≤ sample_timestamp r2 →
  b ∈ out.*1.
Proof.
  intros ->%preprocessing_positions_inr Hr1 Hr2 HT Hb [Hlo Hhi].
  apply list_elem_of_fmap. eexists (b, _). split; [done|].
  apply elem_of_sampled. exists (trip_id r1), b.
  split; [by exists r1|]. split; [|done].
  apply covers_slice. split; [done|]. split; [by exists r1|by exists r2].
Qed.


(** X5.  A copy of a record that stands anywhere after an occurrence of
    that record changes nothing in what the pipeline returns. *)
Theorem later_duplicate_changes_nothing table1 table2 r :
  r ∈ table1 →
  normalize proj (table1 ++ r :: table2) = normalize proj (table1 ++ table2).
Proof.
  intros Hr. unfold normalize, load_positions, drop_duplicates, read_sql. simpl.
  by rewrite unique_insert_dup.
Qed.

End normalizer_facts.

(** ** Code that may raise *)

Section result_facts.
Context {A B : Type} (f : A → result B).

Lemma mapM_result_cons x l :
  mapM f (x :: l) = y ← f x; k ← mapM f l; mret (y :: k).
Proof. done. Qed.

Lemma mapM_result_inr l k :
  mapM f l = inr k → Forall2 (λ x y, f x = inr y) l k.
Proof.
  revert k. induction l as [|x l IH]; intros k.
  - intros [= <-]. constructor.
  - rewrite mapM_result_cons. destruct (f x) as [e|y] eqn:Hx; [done|]. simpl.
    destruct (mapM f l) as [e|k'] eqn:Hl; [done|]. simpl. intros [= <-].
    constructor; [done|]. by apply IH.
Qed.

Lemma mapM_result_inl l e :
  mapM f l = inl e → ∃ x, x ∈ l ∧ f x = inl e.
Proof.
  induction l as [|x l IH]; [done|].
  rewrite mapM_result_cons. destruct (f x) as [e'|y] eqn:Hx; simpl.
  - intros [= <-]. exists x. split; [left|done].
  - destruct (mapM f l) as [e'|k'] eqn:Hl; [|done]. simpl. intros [= <-].
    destruct IH as (z & Hz & Hfz); [done|]. exists z. split; [by right|done].
Qed.

Lemma mapM_result_succeeds l :
  (∀ x, x ∈ l → ∃ y, f x = inr y) → ∃ k, mapM f l = inr k.
Proof.
  induction l as [|x l IH]; intros Hf; [by exists []|].
  rewrite mapM_result_cons. destruct (Hf x) as [y ->]; [left|]. simpl.
  destruct IH as [k ->]; [|by exists (y :: k)].
  intros z Hz. apply Hf. by right.
Qed.

Lemma mapM_result_raises l x e :
  x ∈ l → f x = inl e → ∃ e', mapM f l = inl e'.
Proof.
  intros Hx Hfx. induction l as [|z l IH]; [by apply elem_of_nil in Hx|].
  rewrite mapM_result_cons.
  apply elem_of_cons in Hx as [<-|Hx]; [rewrite Hfx; by exists e|].
  destruct (f z) as [e'|y]; [by exists e'|]. simpl.
  destruct (IH Hx) as [e' ->]. by exists e'.
Qed.

Lemma mapM_result_first_error done x rest e :
  (∀ y, y ∈ done → ∃ z, f y = inr z) → f x = inl e →
  mapM f (done ++ x :: rest) = inl e.
Proof.
  intros Hdone Hx. induction done as [|y done IH]; cbn [app].
  - by rewrite mapM_result_cons, Hx.
  - rewrite mapM_result_cons. destruct (Hdone y) as [z ->]; [left|]. simpl.
    rewrite IH; [done|]. intros y' Hy'. apply Hdone. by right.
Qed.

Lemma mapM_result_length l k : mapM f l = inr k → List.length k = List.length l.
Proof. intros H%mapM_result_inr. symmetry. by eapply Forall2_length. Qed.
End result_facts.

Lemma mapM_result_ext {A B} (f g : A → result B) (l : list A) :
  (∀ x, f x = g x) → mapM f l = mapM g l.
Proof.
  intros Hfg. induction l as [|x l IH]; [done|].
  by rewrite !mapM_result_cons, Hfg, IH.
Qed.

Lemma Forall2_impl_elem {A B} (P Q : A → B → Prop) (l : list A) (k : list B) :
  Forall2 P l k → (∀ x y, x ∈ l → P x y → Q x y) → Forall2 Q l k.
Proof.
  induction 1 as [|x y l k HP _ IH]; intros HPQ; constructor.
  - apply HPQ; [left|done].
  - apply IH. intros x' y' Hx'. apply HPQ. by right.
Qed.

Lemma Forall2_fmap_eq {A B} (h : A → B) (l : list A) (k : list B) :
  Forall2 (λ x y, y = h x) l k → k = h <$> l.
Proof. induction 1 as [|x y l k -> _ ->]; [done|]. by rewrite fmap_cons. Qed.

(** ** Route Geometry Builder *)

Lemma LineString_inr points line : LineString points = inr line → line = points.
Proof.
  destruct points as [|? [|? ?]]; cbv [LineString raise mret result_ret];
    congruence.
Qed.

Lemma LineString_inl points e :
  LineString points = inl e ↔
  List.length points = 1%nat ∧
  e = ValueError "LineStrings must have at least 2 coordinate tuples".
Proof.
  destruct points as [|? [|? ?]]; cbv [LineString raise mret result_ret];
    simpl; split; try done; try (by intros [? _]).
  - by intros [= <-].
  - by intros [_ ->].
Qed.

Lemma elem_of_group_keys keys s : s ∈ group_keys keys ↔ s ∈ keys.
Proof. unfold group_keys. by rewrite merge_sort_Permutation, elem_of_unique. Qed.

Lemma NoDup_group_keys keys : NoDup (group_keys keys).
Proof. unfold group_keys. rewrite merge_sort_Permutation. apply NoDup_unique. Qed.

Lemma get_group_shape_points df s :
  get_group s ((λ p, (shape_id p, (shape_pt_lon p, shape_pt_lat p))) <$> df)
  = shape_points s df.
Proof.
  unfold get_group, shape_points. rewrite filter_fmap, <-!list_fmap_compose.
  done.
Qed.

Lemma shape_points_nonempty df s :
  s ∈ shape_id <$> df → (0 < List.length (shape_points s df))%nat.
Proof.
  intros (p & -> & Hp)%list_elem_of_fmap. unfold shape_points.
  rewrite length_fmap.
  assert (p ∈ filter (λ q, shape_id q = shape_id p) df) as Hin
    by (by apply list_elem_of_filter).
  destruct (filter _ df); [by apply elem_of_nil in Hin|simpl; lia].
Qed.

Lemma sorted_NoDup_strict (l : list Z) :
  StronglySorted Z.le l → NoDup l → StronglySorted Z.lt l.
Proof.
  induction 1 as [|x l Hl IH Hx]; intros Hnd; [constructor|].
  apply NoDup_cons in Hnd as [Hxl Hnd]. constructor; [by apply IH|].
  rewrite Forall_forall in Hx |- *. intros y Hy. specialize (Hx y Hy).
  assert (y ≠ x) by (by intros ->). lia.
Qed.

Lemma fmap_bind_list {A B C} (f : B → C) (g : A → list B) (l : list A) :
  f <$> (l ≫= g) = l ≫= (λ x, f <$> g x).
Proof.
  induction l as [|x l IH]; [done|]. by rewrite !bind_cons, fmap_app, IH.
Qed.

Lemma join_fmap_bind {A B} (g : A → list B) (l : list A) :
  mjoin (g <$> l) = l ≫= g.
Proof. induction l as [|x l IH]; [done|]. by rewrite fmap_cons, bind_cons, <-IH. Qed.

Section builder_facts.
Context (proj : Point → Point).

Local Abbreviation tmp df :=
  ((λ p, (shape_id p, (shape_pt_lon p, shape_pt_lat p))) <$> df).
Local Abbreviation build df :=
  (λ key, line ← LineString (get_group key (tmp df)); mret (key, line)).

Lemma preprocessing_lines_eq df :
  preprocessing_lines proj df =
  gdf ← mapM (build df) (group_keys (shape_id <$> df));
  mret (to_crs_lines proj gdf).
Proof.
  unfold preprocessing_lines. by rewrite <-list_fmap_compose.
Qed.

Lemma build_inr df key y :
  build df key = inr y → y = (key, shape_points key df).
Proof.
  cbv beta. rewrite get_group_shape_points.
  destruct (LineString _) as [e|line] eqn:Hline; [done|].
  apply LineString_inr in Hline as ->. by intros [= <-].
Qed.

Lemma build_inl df key e :
  build df key = inl e ↔
  List.length (shape_points key df) = 1%nat ∧
  e = ValueError "LineStrings must have at least 2 coordinate tuples".
Proof.
  cbv beta. rewrite get_group_shape_points, <-LineString_inl.
  destruct (LineString _) as [e'|line]; simpl; [|done].
  split; congruence.
Qed.

Lemma preprocessing_lines_inr df gdf :
  preprocessing_lines proj df = inr gdf →
  gdf = (λ s, (s, proj <$> shape_points s df)) <$> group_keys (shape_id <$> df).
Proof.
  rewrite preprocessing_lines_eq.
  destruct (mapM _ _) as [e|gdf0] eqn:Hmap; [done|]. simpl. intros [= <-].
  apply mapM_result_inr in Hmap.
  assert (gdf0 = (λ s, (s, shape_points s df)) <$> group_keys (shape_id <$> df))
    as ->.
  { apply Forall2_fmap_eq. eapply Forall2_impl; [done|].
    intros key y. apply build_inr. }
  unfold to_crs_lines. by rewrite <-!list_fmap_compose.
Qed.

Lemma preprocessing_lines_keys df gdf :
  preprocessing_lines proj df = inr gdf → gdf.*1 = group_keys (shape_id <$> df).
Proof.
  intros ->%preprocessing_lines_inr.
  rewrite <-list_fmap_compose. apply list_fmap_id.
Qed.

(** C6.  Whenever the builder returns, it returns one geometry per shape
    identifier of the file, and the vertex sequence of each is the
    projection of that shape's source points in source order, point for
    point: nothing is reordered, sorted or dropped. *)
Theorem route_vertices_in_source_order df gdf :
  preprocessing_lines proj df = inr gdf →
  gdf = (λ s, (s, proj <$> shape_points s df)) <$> group_keys (shape_id <$> df) ∧
  NoDup gdf.*1 ∧
  (∀ s, s ∈ gdf.*1 ↔ s ∈ shape_id <$> df) ∧
  (∀ s line, (s, line) ∈ gdf → line = proj <$> shape_points s df).
Proof.
  intros Hrun. pose proof (preprocessing_lines_keys df gdf Hrun) as Hkeys.
  split; [by apply preprocessing_lines_inr|]. split; [|split].
  - rewrite Hkeys. apply NoDup_group_keys.
  - intros s. rewrite Hkeys. apply elem_of_group_keys.
  - apply preprocessing_lines_inr in Hrun as ->.
    by intros s line (s' & [= -> ->] & _)%list_elem_of_fmap.
Qed.

(** C3, as the code has it.  A shape with fewer than two points makes the
    whole builder raise: the error of that one shape ends the call and no
    Route Geometry set is returned, for any shape.  Only when every shape
    has at least two points is a set returned, and then it has a geometry
    for every shape. *)
Theorem short_shape_aborts_batch df :
  (∀ s, too_short df s →
     preprocessing_lines proj df =
     inl (ValueError "LineStrings must have at least 2 coordinate tuples")) ∧
  ((∀ s, ¬ too_short df s) →
     ∃ gdf, preprocessing_lines proj df = inr gdf ∧
            ∀ s, s ∈ gdf.*1 ↔ s ∈ shape_id <$> df).
Proof.
  split.
  - intros s [Hs Hlen]. rewrite preprocessing_lines_eq.
    pose proof (shape_points_nonempty df s Hs) as Hpos.
    assert (build df s =
            inl (ValueError "LineStrings must have at least 2 coordinate tuples"))
      as Hbuild by (apply build_inl; split; [lia|done]).
    apply elem_of_group_keys in Hs.
    destruct (mapM_result_raises _ _ _ _ Hs Hbuild) as [e He].
    rewrite He. simpl.
    apply mapM_result_inl in He as (key & _ & [_ ->]%build_inl). done.
  - intros Hok.
    destruct (preprocessing_lines proj df) as [e|gdf] eqn:Hrun.
    + exfalso. rewrite preprocessing_lines_eq in Hrun.
      destruct (mapM _ _) as [e'|gdf0] eqn:Hmap; [|done].
      apply mapM_result_inl in Hmap as (key & Hkey & [Hone _]%build_inl).
      apply (Hok key). split; [by apply elem_of_group_keys|lia].
    + exists gdf. split; [done|]. intros s.
      rewrite (preprocessing_lines_keys df gdf Hrun). apply elem_of_group_keys.
Qed.

(** *** Further properties of the builder *)

(** X18.  The geometries come back in strictly ascending order of shape
    identifier, whatever the order of the shapes in the file. *)
Theorem route_keys_ascend df gdf :
  preprocessing_lines proj df = inr gdf → StronglySorted Z.lt gdf.*1.
Proof.
  intros ->%preprocessing_lines_keys. apply sorted_NoDup_strict.
  - apply StronglySorted_merge_sort; apply _.
  - apply NoDup_group_keys.
Qed.

(** X19.  Whenever the builder returns, the vertices of its geometries,
    taken together, are the projected points of the file, each exactly
    once: no point is lost and none is added. *)
Theorem route_vertices_are_the_file_points df gdf :
  preprocessing_lines proj df = inr gdf →
  mjoin gdf.*2 ≡ₚ proj <$> ((λ p, (shape_pt_lon p, shape_pt_lat p)) <$> df).
Proof.
  intros ->%preprocessing_lines_inr.
  assert (((λ s, (s, proj <$> shape_points s df)) <$>
           group_keys (shape_id <$> df)).*2
          = (λ s, proj <$> shape_points s df) <$> group_keys (shape_id <$> df))
    as -> by (by rewrite <-list_fmap_compose).
  rewrite (join_fmap_bind (λ s, proj <$> shape_points s df)).
  unfold shape_points.
  rewrite <-(bind_groups shape_id (group_keys (shape_id <$> df)) df) at 2.
  - rewrite !fmap_bind_list. apply eq_subrelation; [apply _|].
    apply bind_ext_elem. intros s _. by rewrite <-list_fmap_compose.
  - apply NoDup_group_keys.
  - intros p Hp. apply elem_of_group_keys. by apply list_elem_of_fmap_2.
Qed.

(** X20.  Every geometry the builder returns has at least two vertices. *)
Theorem every_route_has_two_vertices df gdf :
  preprocessing_lines proj df = inr gdf →
  ∀ s line, (s, line) ∈ gdf → (2 ≤ List.length line)%nat.
Proof.
  intros Hrun s line Hin.
  pose proof (preprocessing_lines_inr df gdf Hrun) as ->.
  apply list_elem_of_fmap in Hin as (s' & [= -> ->] & Hs).
  rewrite length_fmap.
  pose proof (shape_points_nonempty df s' (proj1 (elem_of_group_keys _ _) Hs)) as Hpos.
  destruct (decide (List.length (shape_points s' df) = 1%nat)) as [Hone|]; [|lia].
  exfalso. rewrite preprocessing_lines_eq in Hrun.
  destruct (mapM _ _) as [e|gdf0] eqn:Hmap; [done|].
  destruct (mapM_result_raises (build df) _ s'
              (ValueError "LineStrings must have at least 2 coordinate tuples") Hs)
    as [e He]; [by apply build_inl|]. congruence.
Qed.
End builder_facts.

(** ** File names *)

Lemma digit_inj a b : 0 ≤ a < 10 → 0 ≤ b < 10 → digit a = digit b → a = b.
Proof.
  intros Ha Hb Heq. apply (f_equal nat_of_ascii) in Heq. unfold digit in Heq.
  rewrite !nat_ascii_embedding in Heq by lia. lia.
Qed.

Lemma two_digits_inj n m :
  0 ≤ n < 100 → 0 ≤ m < 100 → two_digits n = two_digits m → n = m.
Proof.
  intros Hn Hm [= H1 H2].
  apply digit_inj in H1; [|div_lia..]. apply digit_inj in H2; [|div_lia..].
  div_lia.
Qed.

Lemma hour_range t : 0 ≤ hour t < 100.
Proof. unfold hour. div_lia. Qed.

Lemma minute_range t : 0 ≤ minute t < 100.
Proof. unfold minute. div_lia. Qed.

Lemma strftime_HM_inj t1 t2 :
  strftime_HM t1 = strftime_HM t2 → hour t1 = hour t2 ∧ minute t1 = minute t2.
Proof.
  unfold strftime_HM, two_digits. simpl. intros [= H1 H2 H3 H4].
  split; apply two_digits_inj; try apply hour_range; try apply minute_range;
    unfold two_digits; congruence.
Qed.

Lemma string_app_inv_head (p s1 s2 : string) : p +:+ s1 = p +:+ s2 → s1 = s2.
Proof. induction p as [|c p IH]; simpl; [done|]. intros [= ?]. by apply IH. Qed.

Lemma frame_path_inj path_images t1 t2 :
  frame_path path_images t1 = frame_path path_images t2 →
  strftime_HM t1 = strftime_HM t2.
Proof.
  unfold frame_path. intros H%string_app_inv_head. simpl in H.
  injection H as H. revert H.
  unfold strftime_HM, two_digits. simpl. congruence.
Qed.

(** Minute-aligned instants less than a day apart have different codes. *)
Lemma same_code_same_instant t1 t2 :
  t1 `mod` 60 = 0 → t2 `mod` 60 = 0 → t1 - t2 < 86400 → t2 - t1 < 86400 →
  strftime_HM t1 = strftime_HM t2 → t1 = t2.
Proof.
  intros H1 H2 H3 H4 [Hh Hm]%strftime_HM_inj. unfold hour, minute in *.
  div_lia.
Qed.

(** X13.  Two timestamps get the same frame file exactly when they fall in
    the same minute of the day: the name keeps the hour and the minute and
    drops the date and the seconds. *)
Theorem frame_names_collide_iff_same_minute_of_day path_images i j :
  frame_path path_images i = frame_path path_images j ↔
  (i `div` 60) `mod` 1440 = (j `div` 60) `mod` 1440.
Proof.
  split.
  - intros [Hh Hm]%frame_path_inj%strftime_HM_inj. unfold hour, minute in *.
    div_lia.
  - intros Heq. unfold frame_path, strftime_HM.
    assert (hour i = hour j) as -> by (unfold hour; div_lia).
    assert (minute i = minute j) as -> by (unfold minute; div_lia).
    done.
Qed.

Lemma regional_frame_not_downtown i j :
  frame_path path_images_greater_portland i ≠ frame_path path_images_downtown j.
Proof. unfold frame_path. simpl. discriminate. Qed.

Lemma downtown_frame_not_animation i :
  frame_path path_images_downtown i ≠ "data/greater_portland.gif" ∧
  frame_path path_images_downtown i ≠ "data/downtown.gif".
Proof. unfold frame_path. simpl. split; discriminate. Qed.

Lemma regional_frame_not_animation i :
  frame_path path_images_greater_portland i ≠ "data/greater_portland.gif" ∧
  frame_path path_images_greater_portland i ≠ "data/downtown.gif".
Proof. unfold frame_path. simpl. split; discriminate. Qed.

(** ** Frame Renderer and Animation Compositor *)

Section frame_facts.
Context {image : Type}.
Context (plot_frame :
  Z * Z → Z * Z → list (Z * list Point) → list (Z * GeoRow) → string → result image).
Context (gdf_lines : list (Z * list Point)) (gdf_pos : list (Z * GeoRow)).
Implicit Types (fs : gmap string (file image)) (l : list Z).

Local Abbreviation draw xlim ylim :=
  (λ i, plot_frame xlim ylim gdf_lines (loc i gdf_pos) (strftime_H_M i)).
Local Abbreviation body xlim ylim path_images :=
  (λ i, fig ← lift (draw xlim ylim i); savefig (frame_path path_images i) fig).

Lemma body_run xlim ylim path_images i fs :
  body xlim ylim path_images i fs =
  match draw xlim ylim i with
  | inl e => (fs, inl e)
  | inr fig => (<[frame_path path_images i := Png fig]> fs, inr tt)
  end.
Proof.
  cbv beta. unfold mbind, io_bind, lift, savefig.
  by destruct (plot_frame _ _ _ _ _).
Qed.

Lemma for_each_cons {A} (x : A) (l : list A) (f : A → io image unit) fs :
  for_each (x :: l) f fs =
  match f x fs with
  | (fs', inl e) => (fs', inl e)
  | (fs', inr _) => for_each l f fs'
  end.
Proof. done. Qed.

(** A completed loop has drawn every frame; files other than the frame
    files of the loop are as before. *)
Lemma frames_loop_done xlim ylim path_images l fs fs' :
  for_each l (body xlim ylim path_images) fs = (fs', inr tt) →
  dom fs' = dom fs ∪ list_to_set (frame_path path_images <$> l) ∧
  (∀ i, i ∈ l → ∃ fig, fs' !! frame_path path_images i = Some (Png fig)) ∧
  (∀ q, q ∉ frame_path path_images <$> l → fs' !! q = fs !! q).
Proof.
  revert fs. induction l as [|i l IH]; intros fs.
  - intros [= <-]. split; [set_solver|]. split; [|done].
    by intros i ?%elem_of_nil.
  - rewrite for_each_cons, body_run.
    destruct (draw xlim ylim i) as [e|fig]; [done|].
    intros (Hdom & Hin & Hout)%IH. split; [|split].
    + rewrite Hdom, dom_insert_L, fmap_cons. set_solver.
    + intros j Hj.
      destruct (decide (frame_path path_images j ∈ frame_path path_images <$> l))
        as [(k & Hk & Hkl)%list_elem_of_fmap|Hnew].
      * rewrite Hk. by apply Hin.
      * apply elem_of_cons in Hj as [->|Hj];
          [|by destruct Hnew; apply list_elem_of_fmap_2].
        exists fig. rewrite Hout by done. apply lookup_insert_eq.
    + intros q Hq. rewrite fmap_cons, not_elem_of_cons in Hq.
      destruct Hq as [Hqi Hql]. rewrite Hout by done.
      by apply lookup_insert_ne.
Qed.

(** With distinct file names, each file holds the frame of its own
    timestamp. *)
Lemma frames_loop_distinct xlim ylim path_images l fs fs' :
  NoDup (frame_path path_images <$> l) →
  for_each l (body xlim ylim path_images) fs = (fs', inr tt) →
  ∀ i, i ∈ l →
    ∃ fig, draw xlim ylim i = inr fig ∧
           fs' !! frame_path path_images i = Some (Png fig).
Proof.
  revert fs. induction l as [|i l IH]; intros fs Hnd.
  - by intros _ i ?%elem_of_nil.
  - rewrite fmap_cons in Hnd. apply NoDup_cons in Hnd as [Hi Hnd].
    rewrite for_each_cons, body_run.
    destruct (draw xlim ylim i) as [e|fig] eqn:Hdraw; [done|].
    intros Hrun j Hj. apply elem_of_cons in Hj as [->|Hj].
    + exists fig. split; [done|].
      apply frames_loop_done in Hrun as (_ & _ & Hout).
      rewrite Hout by done. apply lookup_insert_eq.
    + by apply (IH _ Hnd Hrun).
Qed.

(** [imread] never writes, so reading the frames in turn is a pure
    traversal of the file system as it stands. *)
Lemma read_frames_run path_images l fs :
  mapM (M := io image) (λ i, imread (frame_path path_images i)) l fs =
  (fs, mapM (M := result) (λ i, (imread (frame_path path_images i) fs).2) l).
Proof.
  set (F := λ i, (imread (frame_path path_images i) fs).2).
  assert (∀ i, imread (frame_path path_images i) fs = (fs, F i)) as Hread by done.
  clearbody F.
  induction l as [|i l IH]; [done|].
  rewrite mapM_result_cons.
  change (mapM (M := io image) (λ i, imread (frame_path path_images i)) (i :: l) fs)
    with (mbind (M := io image)
            (λ y, k ← mapM (λ i, imread (frame_path path_images i)) l; mret (y :: k))
            (imread (frame_path path_images i)) fs).
  unfold mbind at 1, io_bind at 1. rewrite Hread.
  destruct (F i) as [e|y]; [done|].
  unfold mbind at 1, io_bind at 1. rewrite IH.
  by destruct (mapM F l).
Qed.

Lemma create_gif_run path_images path_gif fs :
  create_gif gdf_pos path_images path_gif fs =
  match mapM (M := result) (λ i, (imread (frame_path path_images i) fs).2)
             (unique gdf_pos.*1) with
  | inl e => (fs, inl e)
  | inr frames => mimsave path_gif frames 10 fs
  end.
Proof.
  unfold create_gif. unfold mbind at 1, io_bind at 1.
  rewrite read_frames_run. by destruct (mapM _ _).
Qed.

Lemma mimsave_done path images fps fs fs' :
  mimsave path images fps fs = (fs', inr tt) →
  fs' = <[path := Gif images fps]> fs.
Proof. unfold mimsave. congruence. Qed.

Lemma mimsave_some path images fps fs :
  images ≠ [] → mimsave path images fps fs = (<[path := Gif images fps]> fs, inr tt).
Proof. unfold mimsave. by destruct images. Qed.

Lemma imread_Png path fs fig :
  fs !! path = Some (Png fig) → (imread path fs).2 = inr fig.
Proof. unfold imread. simpl. by intros ->. Qed.

Lemma imread_missing path fs :
  fs !! path = None → (imread path fs).2 = inl (FileNotFoundError path).
Proof. unfold imread. simpl. by intros ->. Qed.

Lemma io_bind_inr {A B} (m : io image A) (f : A → io image B) fs fs' y :
  (m ≫= f) fs = (fs', inr y) →
  ∃ fs1 x, m fs = (fs1, inr x) ∧ f x fs1 = (fs', inr y).
Proof.
  unfold mbind, io_bind. destruct (m fs) as [fs1 [e|x]]; [done|]. eauto.
Qed.

Lemma NoDup_frame_paths path_images l :
  NoDup l → (∀ i, i ∈ l → i `mod` 60 = 0) →
  (∀ i j, i ∈ l → j ∈ l → i - j < 86400) →
  NoDup (frame_path path_images <$> l).
Proof.
  intros Hnd Hmin Hday. apply NoDup_fmap_2_strong; [|done].
  intros i j Hi Hj Heq%frame_path_inj.
  apply same_code_same_instant; auto.
Qed.


(** C10.  Once the renderer has completed over a Sampled Position set and
    an image directory, the compositor run over the same set and directory
    reads every frame file it asks for, one per distinct timestamp, and
    goes on to encode those frames: its missing-file error cannot occur.
    With at least one timestamp the animation is written. *)
Theorem compositor_finds_every_frame xlim ylim path_images path_gif fs fs' :
  create_maps plot_frame gdf_lines gdf_pos xlim ylim path_images fs = (fs', inr tt) →
  ∃ frames,
    Forall2 (λ i fig, imread (frame_path path_images i) fs' = (fs', inr fig))
            (unique gdf_pos.*1) frames ∧
    create_gif gdf_pos path_images path_gif fs' = mimsave path_gif frames 10 fs' ∧
    (gdf_pos ≠ [] →
     create_gif gdf_pos path_images path_gif fs' =
       (<[path_gif := Gif frames 10]> fs', inr tt)).
Proof.
  intros Hrun. unfold create_maps in Hrun.
  destruct (frames_loop_done _ _ _ _ _ _ Hrun) as (_ & Hin & _).
  destruct (mapM_result_succeeds
              (λ i, (imread (frame_path path_images i) fs').2)
              (unique gdf_pos.*1)) as [frames Hframes].
  { intros i Hi. destruct (Hin i Hi) as [fig Hfig]. exists fig.
    by apply imread_Png. }
  assert (create_gif gdf_pos path_images path_gif fs' =
          mimsave path_gif frames 10 fs') as Hgif
    by (by rewrite create_gif_run, Hframes).
  apply mapM_result_inr in Hframes.
  exists frames. split; [|split; [done|]].
  - eapply Forall2_impl; [done|]. simpl. intros i fig <-. done.
  - intros Hpos. rewrite Hgif. apply mimsave_some. intros ->.
    apply Forall2_nil_inv_r in Hframes. destruct gdf_pos; [done|discriminate].
Qed.

(** C8.  If some timestamp of the Sampled Position set has no frame file
    at the output location, the compositor ends with an error and writes
    nothing: the file system is as it was, without an animation. *)
Theorem missing_frame_is_fatal path_images path_gif fs i :
  i ∈ gdf_pos.*1 → fs !! frame_path path_images i = None →
  ∃ e, create_gif gdf_pos path_images path_gif fs = (fs, inl e).
Proof.
  intros Hi Hmissing. rewrite create_gif_run.
  destruct (mapM_result_raises
              (λ i, (imread (frame_path path_images i) fs).2)
              (unique gdf_pos.*1) i (FileNotFoundError (frame_path path_images i)))
    as [e ->]; [by apply elem_of_unique|by apply imread_missing|].
  by exists e.
Qed.


(** *** Further properties of the renderer and the compositor *)

Lemma io_bind_run {A B} (m : io image A) (f : A → io image B) fs fs1 x :
  m fs = (fs1, inr x) → (m ≫= f) fs = f x fs1.
Proof. unfold mbind, io_bind. by intros ->. Qed.

(** The loop completes exactly when every frame can be drawn. *)
Lemma frames_loop_completes xlim ylim path_images l fs :
  (∃ fs', for_each l (body xlim ylim path_images) fs = (fs', inr tt)) ↔
  (∀ i, i ∈ l → ∃ fig, draw xlim ylim i = inr fig).
Proof.
  revert fs. induction l as [|i l IH]; intros fs.
  - split; [by intros _ i ?%elem_of_nil|]. intros _. by exists fs.
  - rewrite for_each_cons, body_run. split.
    + intros [fs' Hrun] j Hj.
      destruct (draw xlim ylim i) as [e|fig] eqn:Hdraw; [done|].
      apply elem_of_cons in Hj as [->|Hj]; [by exists fig|].
      by apply (proj1 (IH _) (ex_intro _ fs' Hrun)).
    + intros Hall. destruct (Hall i) as [fig ->]; [left|].
      apply IH. intros j Hj. apply Hall. by right.
Qed.

(** A loop that raises has completed over the timestamps before the one
    whose drawing raised. *)
Lemma frames_loop_raises xlim ylim path_images l fs fs' e :
  for_each l (body xlim ylim path_images) fs = (fs', inl e) →
  ∃ done i rest, l = done ++ i :: rest ∧ draw xlim ylim i = inl e ∧
                 for_each done (body xlim ylim path_images) fs = (fs', inr tt).
Proof.
  revert fs. induction l as [|i l IH]; intros fs; [done|].
  rewrite for_each_cons, body_run.
  destruct (draw xlim ylim i) as [e'|fig] eqn:Hdraw.
  - intros [= <- <-]. by exists [], i, l.
  - intros (done & j & rest & -> & Hj & Hdone)%IH.
    exists (i :: done), j, rest. split; [done|]. split; [done|].
    by rewrite for_each_cons, body_run, Hdraw.
Qed.

(** What a completed loop leaves in its frame files does not depend on the
    file system it started from. *)
Lemma frames_loop_same_writes xlim ylim path_images l fs fs1 fs0 :
  for_each l (body xlim ylim path_images) fs = (fs1, inr tt) →
  ∃ fs2, for_each l (body xlim ylim path_images) fs0 = (fs2, inr tt) ∧
         ∀ q, q ∈ frame_path path_images <$> l → fs2 !! q = fs1 !! q.
Proof.
  revert fs fs0. induction l as [|i l IH]; intros fs fs0.
  - intros _. exists fs0. split; [done|]. by intros q ?%elem_of_nil.
  - rewrite !for_each_cons, !body_run.
    destruct (draw xlim ylim i) as [e|fig]; [done|]. intros Hrun.
    destruct (IH _ (<[frame_path path_images i := Png fig]> fs0) Hrun)
      as (fs2 & Hrun2 & Hsame).
    exists fs2. split; [done|]. intros q Hq.
    destruct (decide (q ∈ frame_path path_images <$> l)) as [Hin|Hout];
      [by apply Hsame|].
    rewrite fmap_cons in Hq. apply elem_of_cons in Hq as [->|Hq]; [|done].
    apply frames_loop_done in Hrun as (_ & _ & Hkeep1).
    apply frames_loop_done in Hrun2 as (_ & _ & Hkeep2).
    by rewrite Hkeep1, Hkeep2, !lookup_insert_eq.
Qed.

(** X7.  Every row of the Sampled Position set belongs to the frame of
    exactly one timestamp: the frames' position sets, taken together, are
    the set itself. *)
Theorem every_position_in_exactly_one_frame :
  unique gdf_pos.*1 ≫= (λ i, loc i gdf_pos) ≡ₚ gdf_pos.
Proof.
  apply (bind_groups fst); [apply NoDup_unique|].
  intros x Hx. apply elem_of_unique. by apply list_elem_of_fmap_2.
Qed.

(** X8.  The renderer completes exactly when the frame of every timestamp
    can be drawn. *)
Theorem create_maps_completes_iff_every_frame_draws xlim ylim path_images fs :
  (∃ fs', create_maps plot_frame gdf_lines gdf_pos xlim ylim path_images fs
          = (fs', inr tt)) ↔
  (∀ i, i ∈ gdf_pos.*1 → ∃ fig, draw xlim ylim i = inr fig).
Proof.
  unfold create_maps. rewrite frames_loop_completes.
  by setoid_rewrite elem_of_unique.
Qed.

(** X9.  When drawing raises at some timestamp, the renderer stops there
    with that exception: the frames of the earlier timestamps are drawn and
    on file, and no file but theirs has been written. *)
Theorem create_maps_stops_at_first_failure xlim ylim path_images fs fs' e :
  create_maps plot_frame gdf_lines gdf_pos xlim ylim path_images fs = (fs', inl e) →
  ∃ done i rest,
    unique gdf_pos.*1 = done ++ i :: rest ∧
    draw xlim ylim i = inl e ∧
    (∀ j, j ∈ done → ∃ fig, draw xlim ylim j = inr fig) ∧
    (∀ j, j ∈ done → ∃ fig, fs' !! frame_path path_images j = Some (Png fig)) ∧
    dom fs' = dom fs ∪ list_to_set (frame_path path_images <$> done) ∧
    (∀ q, q ∉ frame_path path_images <$> done → fs' !! q = fs !! q).
Proof.
  unfold create_maps. intros (done & i & rest & Hsplit & Hi & Hdone)%frames_loop_raises.
  exists done, i, rest. split; [done|]. split; [done|].
  split; [by apply (frames_loop_completes xlim ylim path_images done fs); exists fs'|].
  apply frames_loop_done in Hdone as (Hdom & Hin & Hout). done.
Qed.


(** X11.  A compositor run that completes has read one frame per distinct
    timestamp, in the order of the timestamps, and has changed one file
    only: the animation, which holds those frames at 10 frames per
    second. *)
Theorem create_gif_writes_only_the_animation path_images path_gif fs fs' :
  create_gif gdf_pos path_images path_gif fs = (fs', inr tt) →
  ∃ frames,
    fs' = <[path_gif := Gif frames 10]> fs ∧
    List.length frames = List.length (unique gdf_pos.*1) ∧
    Forall2 (λ i fig, imread (frame_path path_images i) fs = (fs, inr fig))
            (unique gdf_pos.*1) frames.
Proof.
  rewrite create_gif_run.
  destruct (mapM _ _) as [e|frames] eqn:Hframes; [done|].
  intros ->%mimsave_done. exists frames. split; [done|].
  split; [by apply mapM_result_length in Hframes|].
  apply mapM_result_inr in Hframes. eapply Forall2_impl; [done|].
  simpl. by intros i fig <-.
Qed.

(** X12.  When the frame files of the first timestamps are there and the
    next one is missing, the compositor raises the file-not-found error
    that names this first missing file, and writes nothing. *)
Theorem create_gif_reports_first_missing_frame path_images path_gif fs done i rest :
  unique gdf_pos.*1 = done ++ i :: rest →
  (∀ j, j ∈ done → ∃ fig, fs !! frame_path path_images j = Some (Png fig)) →
  fs !! frame_path path_images i = None →
  create_gif gdf_pos path_images path_gif fs
  = (fs, inl (FileNotFoundError (frame_path path_images i))).
Proof.
  intros Hsplit Hdone Hi. rewrite create_gif_run, Hsplit.
  rewrite (mapM_result_first_error _ done i rest
             (FileNotFoundError (frame_path path_images i))); [done| |].
  - intros j Hj. destruct (Hdone j Hj) as [fig Hfig]. exists fig.
    by apply imread_Png.
  - by apply imread_missing.
Qed.

Lemma imread_insert_ne path q (v : file image) fs :
  q ≠ path → (imread path (<[q := v]> fs)).2 = (imread path fs).2.
Proof. intros Hne. unfold imread. simpl. by rewrite lookup_insert_ne. Qed.

(** The four calls of a completed run, one after the other: both
    animations are made of what the downtown directory holds after the two
    renderings. *)
Lemma draw_and_animate_steps fs fs' :
  draw_and_animate plot_frame gdf_lines gdf_pos fs = (fs', inr tt) →
  ∃ fs1 fs2 frames,
    create_maps plot_frame gdf_lines gdf_pos xlim_greater_portland
      ylim_greater_portland path_images_greater_portland fs = (fs1, inr tt) ∧
    create_maps plot_frame gdf_lines gdf_pos xlim_downtown ylim_downtown
      path_images_downtown fs1 = (fs2, inr tt) ∧
    mapM (M := result) (λ i, (imread (frame_path path_images_downtown i) fs2).2)
         (unique gdf_pos.*1) = inr frames ∧
    fs' = <["data/downtown.gif" := Gif frames 10]>
            (<["data/greater_portland.gif" := Gif frames 10]> fs2).
Proof.
  unfold draw_and_animate.
  intros (fs1 & [] & Hmaps1 & (fs2 & [] & Hmaps2 & (fs3 & [] & Hgif1 & Hgif2)%io_bind_inr)
            %io_bind_inr)%io_bind_inr.
  rewrite create_gif_run in Hgif1, Hgif2.
  destruct (mapM _ _) as [e|frames] eqn:Hframes in Hgif1; [done|].
  apply mimsave_done in Hgif1 as ->.
  rewrite (mapM_result_ext _
             (λ i, (imread (frame_path path_images_downtown i) fs2).2)) in Hgif2.
  2:{ intros i. apply imread_insert_ne. intros Heq.
      by destruct (downtown_frame_not_animation i) as [[] _]. }
  rewrite Hframes in Hgif2. apply mimsave_done in Hgif2 as ->.
  by exists fs1, fs2, frames.
Qed.

(** X14.  In the notebook's run over timestamps on the minute and less
    than a day apart, the downtown animation is made of the frames drawn
    with the downtown limits, one per distinct timestamp in the order of
    iteration. *)
Theorem downtown_animation_shows_downtown_frames fs fs' :
  (∀ i, i ∈ gdf_pos.*1 → i `mod` 60 = 0) →
  (∀ i j, i ∈ gdf_pos.*1 → j ∈ gdf_pos.*1 → i - j < 86400) →
  draw_and_animate plot_frame gdf_lines gdf_pos fs = (fs', inr tt) →
  ∃ frames,
    fs' !! "data/downtown.gif" = Some (Gif frames 10) ∧
    Forall2 (λ i fig, draw xlim_downtown ylim_downtown i = inr fig)
            (unique gdf_pos.*1) frames.
Proof.
  intros Hmin Hday (fs1 & fs2 & frames & _ & Hmaps & Hread & ->)
    %draw_and_animate_steps.
  exists frames. split; [apply lookup_insert_eq|].
  assert (NoDup (frame_path path_images_downtown <$> unique gdf_pos.*1)) as Hnd.
  { apply NoDup_frame_paths; [apply NoDup_unique|..];
      setoid_rewrite elem_of_unique; auto. }
  apply mapM_result_inr in Hread.
  eapply Forall2_impl_elem; [done|]. intros i fig Hi Hfig. cbv beta in Hfig.
  unfold create_maps in Hmaps.
  destruct (frames_loop_distinct _ _ _ _ _ _ Hnd Hmaps i Hi) as (fig' & Hdraw & Hfile).
  apply imread_Png in Hfile. congruence.
Qed.

(** X15.  In such a run the frames of the regional extent stay on file as
    they were drawn: neither the downtown rendering nor the compositor
    touches them. *)
Theorem regional_frames_stay_as_drawn fs fs' :
  (∀ i, i ∈ gdf_pos.*1 → i `mod` 60 = 0) →
  (∀ i j, i ∈ gdf_pos.*1 → j ∈ gdf_pos.*1 → i - j < 86400) →
  draw_and_animate plot_frame gdf_lines gdf_pos fs = (fs', inr tt) →
  ∀ i, i ∈ gdf_pos.*1 →
    ∃ fig, draw xlim_greater_portland ylim_greater_portland i = inr fig ∧
           fs' !! frame_path path_images_greater_portland i = Some (Png fig).
Proof.
  intros Hmin Hday (fs1 & fs2 & frames & Hmaps1 & Hmaps2 & _ & ->)
    %draw_and_animate_steps i Hi.
  assert (NoDup (frame_path path_images_greater_portland <$> unique gdf_pos.*1))
    as Hnd.
  { apply NoDup_frame_paths; [apply NoDup_unique|..];
      setoid_rewrite elem_of_unique; auto. }
  unfold create_maps in Hmaps1, Hmaps2.
  destruct (frames_loop_distinct _ _ _ _ _ _ Hnd Hmaps1 i) as (fig & Hdraw & Hfile);
    [by apply elem_of_unique|].
  exists fig. split; [done|].
  destruct (regional_frame_not_animation i) as [Hgp Hdt].
  rewrite !lookup_insert_ne by done.
  apply frames_loop_done in Hmaps2 as (_ & _ & Hkeep).
  rewrite Hkeep; [done|].
  intros (j & Heq & _)%list_elem_of_fmap. by apply regional_frame_not_downtown in Heq.
Qed.

(** X16.  A completed run leaves the same animation, frame for frame,
    under both animation paths. *)
Theorem both_animations_are_the_same fs fs' :
  draw_and_animate plot_frame gdf_lines gdf_pos fs = (fs', inr tt) →
  ∃ frames,
    fs' !! "data/greater_portland.gif" = Some (Gif frames 10) ∧
    fs' !! "data/downtown.gif" = Some (Gif frames 10).
Proof.
  intros (fs1 & fs2 & frames & _ & _ & _ & ->)%draw_and_animate_steps.
  exists frames. split; [|apply lookup_insert_eq].
  rewrite lookup_insert_ne by done. apply lookup_insert_eq.
Qed.

(** X17.  The run of cells 11 to 15 completes whenever there is at least
    one Sampled Position and every frame can be drawn with the limits of
    both extents. *)
Theorem draw_and_animate_completes fs :
  gdf_pos ≠ [] →
  (∀ i, i ∈ gdf_pos.*1 →
     (∃ fig, draw xlim_greater_portland ylim_greater_portland i = inr fig) ∧
     (∃ fig, draw xlim_downtown ylim_downtown i = inr fig)) →
  ∃ fs', draw_and_animate plot_frame gdf_lines gdf_pos fs = (fs', inr tt).
Proof.
  intros Hpos Hdraw.
  destruct (proj2 (frames_loop_completes xlim_greater_portland ylim_greater_portland
                     path_images_greater_portland (unique gdf_pos.*1) fs))
    as [fs1 Hmaps1].
  { intros i Hi. rewrite elem_of_unique in Hi. by destruct (Hdraw i Hi). }
  destruct (proj2 (frames_loop_completes xlim_downtown ylim_downtown
                     path_images_downtown (unique gdf_pos.*1) fs1))
    as [fs2 Hmaps2].
  { intros i Hi. rewrite elem_of_unique in Hi. by destruct (Hdraw i Hi). }
  destruct (frames_loop_done _ _ _ _ _ _ Hmaps2) as (_ & Hin & _).
  destruct (mapM_result_succeeds
              (λ i, (imread (frame_path path_images_downtown i) fs2).2)
              (unique gdf_pos.*1)) as [frames Hframes].
  { intros i Hi. destruct (Hin i Hi) as [fig Hfig]. exists fig.
    by apply imread_Png. }
  assert (frames ≠ []) as Hsome.
  { intros ->. apply mapM_result_inr, Forall2_nil_inv_r in Hframes.
    destruct gdf_pos; [done|discriminate]. }
  exists (<["data/downtown.gif" := Gif frames 10]>
            (<["data/greater_portland.gif" := Gif frames 10]> fs2)).
  unfold draw_and_animate.
  rewrite (io_bind_run _ _ _ _ tt Hmaps1), (io_bind_run _ _ _ _ tt Hmaps2).
  erewrite io_bind_run.
  2:{ rewrite create_gif_run, Hframes. by apply mimsave_some. }
  rewrite create_gif_run.
  rewrite (mapM_result_ext _
             (λ i, (imread (frame_path path_images_downtown i) fs2).2)).
  2:{ intros i. apply imread_insert_ne. intros Heq.
      by destruct (downtown_frame_not_animation i) as [[] _]. }
  rewrite Hframes. by apply mimsave_some.
Qed.
End frame_facts.

(** ** Sample runs *)

Example one_trip_with_gap_output :
  normalize (sorter := merge_index_sort) double one_trip_with_gap =
  inr [sampled_position double (position 7 50400 1 2);
       placeholder 25260;
       sampled_position double (position 7 50520 3 4)].
Proof. vm_compute. reflexivity. Qed.

Example two_trips_output :
  normalize (sorter := merge_index_sort) double two_trips = inr two_trips_sampled.
Proof. vm_compute. reflexivity. Qed.

Example two_days_output :
  normalize (sorter := merge_index_sort) double two_days = inr two_days_sampled.
Proof. vm_compute. reflexivity. Qed.

(** [first] goes column by column: a missing cell is filled from the next
    row of the bin.  Position records have no missing cells. *)
Example first_skips_missing_cells :
  first [ {| row_trip_id := Some 7; row_update_time := Some 50400;
             row_longitude := None; row_latitude := Some (inject_Z 2) |};
          {| row_trip_id := Some 7; row_update_time := Some 50410;
             row_longitude := Some (inject_Z 5); row_latitude := Some (inject_Z 6) |} ]
  = {| row_trip_id := Some 7; row_update_time := Some 50400;
       row_longitude := Some (inject_Z 5); row_latitude := Some (inject_Z 2) |}.
Proof. reflexivity. Qed.

Example no_records_no_frame :
  normalize (sorter := merge_index_sort) double [] = inl (AttributeError "longitude").
Proof. vm_compute. reflexivity. Qed.



(** C3, refuted as stated.  Shape 1 has a single point and shape 2 has two;
    the builder returns no geometry at all. *)
Lemma stray_point_loses_every_route :
  ¬ short_shapes_are_skipped double one_stray_point.
Proof.
  intros Hskip. destruct (Hskip 1) as (gdf & Hrun & _); [|by vm_compute in Hrun].
  split; [left|]. vm_compute. lia.
Qed.

Example two_days_frames :
  create_maps sketch_frame [] two_days_sampled
    xlim_downtown ylim_downtown path_images_downtown ∅ =
  ({[ "data/downtown/0700.png" :=
        Png {| sketch_xlim := xlim_downtown; sketch_ylim := ylim_downtown;
               sketch_positions := 1; sketch_label := "07:00" |} ]},
   inr tt).
Proof. vm_compute. reflexivity. Qed.


(** *** Instances of the theorems *)



Lemma duplicate_record_changes_nothing_witness :
  position 7 50400 1 2 ∈ two_trips ∧
  normalize (sorter := merge_index_sort) double (two_trips ++ [position 7 50400 1 2])
  = normalize (sorter := merge_index_sort) double two_trips.
Proof.
  assert (position 7 50400 1 2 ∈ two_trips) as Hin by (right; right; left).
  split; [exact Hin|].
  exact (duplicate_record_changes_nothing (sorter := merge_index_sort) double
           two_trips (position 7 50400 1 2) Hin).
Defined.

Lemma short_shape_aborts_batch_witness :
  too_short one_stray_point 1 ∧
  preprocessing_lines double one_stray_point =
  inl (ValueError "LineStrings must have at least 2 coordinate tuples").
Proof.
  assert (too_short one_stray_point 1) as Hshort.
  { split; [left|]. vm_compute. lia. }
  split; [exact Hshort|].
  exact (proj1 (short_shape_aborts_batch double one_stray_point) 1 Hshort).
Defined.

Lemma route_vertices_in_source_order_witness :
  preprocessing_lines double two_routes = inr two_routes_lines ∧
  (two_routes_lines = (λ s, (s, double <$> shape_points s two_routes)) <$>
                      group_keys (shape_id <$> two_routes) ∧
   NoDup two_routes_lines.*1 ∧
   (∀ s, s ∈ two_routes_lines.*1 ↔ s ∈ shape_id <$> two_routes) ∧
   (∀ s line, (s, line) ∈ two_routes_lines →
              line = double <$> shape_points s two_routes)).
Proof.
  assert (preprocessing_lines double two_routes = inr two_routes_lines) as Hrun
    by (vm_compute; reflexivity).
  split; [exact Hrun|].
  exact (route_vertices_in_source_order double two_routes two_routes_lines Hrun).
Defined.

Example two_trips_timestamps : unique two_trips_sampled.*1 = [25200; 25260; 25320].
Proof. vm_compute. reflexivity. Qed.


Lemma compositor_finds_every_frame_witness :
  create_maps sketch_frame two_routes_lines two_trips_sampled
    xlim_downtown ylim_downtown path_images_downtown ∅ = (two_trips_frames, inr tt) ∧
  ∃ frames,
    Forall2 (λ i fig, imread (frame_path path_images_downtown i) two_trips_frames
                      = (two_trips_frames, inr fig))
            (unique two_trips_sampled.*1) frames ∧
    create_gif two_trips_sampled path_images_downtown "data/downtown.gif"
      two_trips_frames
    = mimsave "data/downtown.gif" frames 10 two_trips_frames ∧
    (two_trips_sampled ≠ [] →
     create_gif two_trips_sampled path_images_downtown "data/downtown.gif"
       two_trips_frames
     = (<["data/downtown.gif" := Gif frames 10]> two_trips_frames, inr tt)).
Proof.
  assert (create_maps sketch_frame two_routes_lines two_trips_sampled
            xlim_downtown ylim_downtown path_images_downtown ∅
          = (two_trips_frames, inr tt))
    as Hrun by (vm_compute; reflexivity).
  split; [exact Hrun|].
  exact (compositor_finds_every_frame sketch_frame two_routes_lines
           two_trips_sampled xlim_downtown ylim_downtown path_images_downtown
           "data/downtown.gif" ∅ two_trips_frames Hrun).
Defined.

Lemma missing_frame_is_fatal_witness :
  (25260 ∈ two_trips_sampled.*1 ∧
   first_frame_only !! frame_path path_images_downtown 25260 = None) ∧
  ∃ e, create_gif two_trips_sampled path_images_downtown "data/downtown.gif"
         first_frame_only
       = (first_frame_only, inl e).
Proof.
  assert (25260 ∈ two_trips_sampled.*1) as Hin
    by (apply (bool_decide_unpack _); vm_compute; exact I).
  assert (first_frame_only !! frame_path path_images_downtown 25260 = None)
    as Hmissing by (vm_compute; reflexivity).
  split; [by split|].
  exact (missing_frame_is_fatal two_trips_sampled path_images_downtown
           "data/downtown.gif" first_frame_only 25260 Hin Hmissing).
Defined.


(** The regional animation next to the regional frames: every frame of the
    animation carries the downtown limits. *)
Example regional_animation_on_two_trips :
  two_trips_run !! "data/greater_portland.gif" =
    Some (Gif [ {| sketch_xlim := xlim_downtown; sketch_ylim := ylim_downtown;
                   sketch_positions := 1; sketch_label := "07:00" |};
                {| sketch_xlim := xlim_downtown; sketch_ylim := ylim_downtown;
                   sketch_positions := 2; sketch_label := "07:01" |};
                {| sketch_xlim := xlim_downtown; sketch_ylim := ylim_downtown;
                   sketch_positions := 1; sketch_label := "07:02" |} ] 10) ∧
  two_trips_run !! "data/greater_portland/0700.png" =
    Some (Png {| sketch_xlim := xlim_greater_portland;
                 sketch_ylim := ylim_greater_portland;
                 sketch_positions := 1; sketch_label := "07:00" |}).
Proof. split; vm_compute; reflexivity. Qed.

(** *** Instances of the further properties *)


Lemma two_trips_returns :
  (preprocessing_positions (sorter := merge_index_sort) double
     (read_sql two_trips)).2 = inr two_trips_sampled.
Proof. vm_compute. reflexivity. Qed.

Lemma sample_timestamps_ascend_witness :
  (preprocessing_positions (sorter := merge_index_sort) double
     (read_sql two_trips)).2 = inr two_trips_sampled ∧
  Sorted index_le two_trips_sampled ∧
  StronglySorted Z.lt (unique two_trips_sampled.*1).
Proof.
  split; [exact two_trips_returns|].
  exact (sample_timestamps_ascend (sorter := merge_index_sort) double
           (read_sql two_trips) two_trips_sampled two_trips_returns).
Defined.

Lemma sample_timestamps_within_observed_span_witness :
  ((preprocessing_positions (sorter := merge_index_sort) double
      (read_sql two_trips)).2 = inr two_trips_sampled ∧
   25260 ∈ two_trips_sampled.*1) ∧
  (25260 `mod` 60 = 0 ∧
   ∃ r1 r2, r1 ∈ two_trips ∧ r2 ∈ two_trips ∧ trip_id r1 = trip_id r2 ∧
            sample_timestamp r1 ≤ 25260 ≤ sample_timestamp r2).
Proof.
  assert (25260 ∈ two_trips_sampled.*1) as Hin by (right; left).
  split; [split; [exact two_trips_returns|exact Hin]|].
  exact (sample_timestamps_within_observed_span (sorter := merge_index_sort) double
           (read_sql two_trips) two_trips_sampled two_trips_returns 25260 Hin).
Defined.

Lemma trip_span_has_a_row_every_minute_witness :
  ((preprocessing_positions (sorter := merge_index_sort) double
      (read_sql two_trips)).2 = inr two_trips_sampled ∧
   position 7 50400 1 2 ∈ two_trips ∧ position 7 50530 3 4 ∈ two_trips ∧
   trip_id (position 7 50400 1 2) = trip_id (position 7 50530 3 4) ∧
   25260 `mod` 60 = 0 ∧
   sample_timestamp (position 7 50400 1 2) ≤ 25260
     ≤ sample_timestamp (position 7 50530 3 4)) ∧
  25260 ∈ two_trips_sampled.*1.
Proof.
  assert (position 7 50400 1 2 ∈ two_trips) as H1 by (right; right; left).
  assert (position 7 50530 3 4 ∈ two_trips) as H2 by (right; right; right; left).
  assert (sample_timestamp (position 7 50400 1 2) ≤ 25260
            ≤ sample_timestamp (position 7 50530 3 4)) as Hspan
    by (vm_compute; split; discriminate).
  split; [by repeat split; try exact two_trips_returns|].
  exact (trip_span_has_a_row_every_minute (sorter := merge_index_sort) double
           (read_sql two_trips) two_trips_sampled _ _ 25260
           two_trips_returns H1 H2 eq_refl eq_refl Hspan).
Defined.

Lemma later_duplicate_changes_nothing_witness :
  position 7 50410 5 6 ∈ [position 7 50410 5 6; position 8 50470 9 9] ∧
  normalize (sorter := merge_index_sort) double
    ([position 7 50410 5 6; position 8 50470 9 9]
     ++ position 7 50410 5 6 :: [position 7 50400 1 2])
  = normalize (sorter := merge_index_sort) double
      ([position 7 50410 5 6; position 8 50470 9 9] ++ [position 7 50400 1 2]).
Proof.
  assert (position 7 50410 5 6 ∈ [position 7 50410 5 6; position 8 50470 9 9])
    as Hin by left.
  split; [exact Hin|].
  exact (later_duplicate_changes_nothing (sorter := merge_index_sort) double
           _ [position 7 50400 1 2] _ Hin).
Defined.

Lemma two_routes_returns : preprocessing_lines double two_routes = inr two_routes_lines.
Proof. vm_compute. reflexivity. Qed.

Lemma route_keys_ascend_witness :
  preprocessing_lines double two_routes = inr two_routes_lines ∧
  StronglySorted Z.lt two_routes_lines.*1.
Proof.
  split; [exact two_routes_returns|].
  exact (route_keys_ascend double two_routes two_routes_lines two_routes_returns).
Defined.

Lemma route_vertices_are_the_file_points_witness :
  preprocessing_lines double two_routes = inr two_routes_lines ∧
  mjoin two_routes_lines.*2 ≡ₚ
  double <$> ((λ p, (shape_pt_lon p, shape_pt_lat p)) <$> two_routes).
Proof.
  split; [exact two_routes_returns|].
  exact (route_vertices_are_the_file_points double two_routes two_routes_lines
           two_routes_returns).
Defined.

Lemma every_route_has_two_vertices_witness :
  preprocessing_lines double two_routes = inr two_routes_lines ∧
  ∀ s line, (s, line) ∈ two_routes_lines → (2 ≤ List.length line)%nat.
Proof.
  split; [exact two_routes_returns|].
  exact (every_route_has_two_vertices double two_routes two_routes_lines
           two_routes_returns).
Defined.

Lemma two_trips_frames_drawn :
  create_maps sketch_frame two_routes_lines two_trips_sampled
    xlim_downtown ylim_downtown path_images_downtown ∅ = (two_trips_frames, inr tt).
Proof. vm_compute. reflexivity. Qed.

Lemma two_trips_run_done :
  draw_and_animate sketch_frame two_routes_lines two_trips_sampled ∅
  = (two_trips_run, inr tt).
Proof. vm_compute. reflexivity. Qed.

Lemma two_trips_on_the_minute : ∀ i, i ∈ two_trips_sampled.*1 → i `mod` 60 = 0.
Proof.
  apply Forall_forall. apply (bool_decide_unpack _). vm_compute. exact I.
Qed.

Lemma two_trips_within_a_day :
  ∀ i j, i ∈ two_trips_sampled.*1 → j ∈ two_trips_sampled.*1 → i - j < 86400.
Proof.
  assert (Forall (λ i, Forall (λ j, i - j < 86400) two_trips_sampled.*1)
                 two_trips_sampled.*1) as Hday
    by (apply (bool_decide_unpack _); vm_compute; exact I).
  intros i j Hi Hj. rewrite Forall_forall in Hday.
  specialize (Hday i Hi). rewrite Forall_forall in Hday. by apply Hday.
Qed.

Lemma create_maps_stops_at_first_failure_witness :
  create_maps sketch_frame_but_0701 two_routes_lines two_trips_sampled
    xlim_downtown ylim_downtown path_images_downtown ∅
  = (first_frame_only, inl (PlotError 25260)) ∧
  ∃ done i rest,
    unique two_trips_sampled.*1 = done ++ i :: rest ∧
    sketch_frame_but_0701 xlim_downtown ylim_downtown two_routes_lines
      (loc i two_trips_sampled) (strftime_H_M i) = inl (PlotError 25260) ∧
    (∀ j, j ∈ done →
       ∃ fig, sketch_frame_but_0701 xlim_downtown ylim_downtown two_routes_lines
                (loc j two_trips_sampled) (strftime_H_M j) = inr fig) ∧
    (∀ j, j ∈ done →
       ∃ fig, first_frame_only !! frame_path path_images_downtown j = Some (Png fig)) ∧
    dom first_frame_only =
      dom (∅ : gmap string (file sketch)) ∪
      list_to_set (frame_path path_images_downtown <$> done) ∧
    (∀ q, q ∉ frame_path path_images_downtown <$> done →
          first_frame_only !! q = (∅ : gmap string (file sketch)) !! q).
Proof.
  assert (create_maps sketch_frame_but_0701 two_routes_lines two_trips_sampled
            xlim_downtown ylim_downtown path_images_downtown ∅
          = (first_frame_only, inl (PlotError 25260))) as Hrun
    by (vm_compute; reflexivity).
  split; [exact Hrun|].
  exact (create_maps_stops_at_first_failure sketch_frame_but_0701 two_routes_lines
           two_trips_sampled xlim_downtown ylim_downtown path_images_downtown
           ∅ first_frame_only (PlotError 25260) Hrun).
Defined.


Lemma create_gif_writes_only_the_animation_witness :
  create_gif two_trips_sampled path_images_downtown "data/downtown.gif"
    two_trips_frames
  = (<["data/downtown.gif" :=
         Gif [ {| sketch_xlim := xlim_downtown; sketch_ylim := ylim_downtown;
                  sketch_positions := 1; sketch_label := "07:00" |};
               {| sketch_xlim := xlim_downtown; sketch_ylim := ylim_downtown;
                  sketch_positions := 2; sketch_label := "07:01" |};
               {| sketch_xlim := xlim_downtown; sketch_ylim := ylim_downtown;
                  sketch_positions := 1; sketch_label := "07:02" |} ] 10]>
       two_trips_frames, inr tt) ∧
  ∃ frames,
    <["data/downtown.gif" :=
        Gif [ {| sketch_xlim := xlim_downtown; sketch_ylim := ylim_downtown;
                 sketch_positions := 1; sketch_label := "07:00" |};
              {| sketch_xlim := xlim_downtown; sketch_ylim := ylim_downtown;
                 sketch_positions := 2; sketch_label := "07:01" |};
              {| sketch_xlim := xlim_downtown; sketch_ylim := ylim_downtown;
                 sketch_positions := 1; sketch_label := "07:02" |} ] 10]>
      two_trips_frames
    = <["data/downtown.gif" := Gif frames 10]> two_trips_frames ∧
    List.length frames = List.length (unique two_trips_sampled.*1) ∧
    Forall2 (λ i fig, imread (frame_path path_images_downtown i) two_trips_frames
                      = (two_trips_frames, inr fig))
            (unique two_trips_sampled.*1) frames.
Proof.
  assert (create_gif two_trips_sampled path_images_downtown "data/downtown.gif"
            two_trips_frames
          = (<["data/downtown.gif" :=
                 Gif [ {| sketch_xlim := xlim_downtown; sketch_ylim := ylim_downtown;
                          sketch_positions := 1; sketch_label := "07:00" |};
                       {| sketch_xlim := xlim_downtown; sketch_ylim := ylim_downtown;
                          sketch_positions := 2; sketch_label := "07:01" |};
                       {| sketch_xlim := xlim_downtown; sketch_ylim := ylim_downtown;
                          sketch_positions := 1; sketch_label := "07:02" |} ] 10]>
               two_trips_frames, inr tt)) as Hrun
    by (vm_compute; reflexivity).
  split; [exact Hrun|].
  exact (create_gif_writes_only_the_animation two_trips_sampled path_images_downtown
           "data/downtown.gif" two_trips_frames _ Hrun).
Defined.

Lemma create_gif_reports_first_missing_frame_witness :
  (unique two_trips_sampled.*1 = [25200] ++ 25260 :: [25320] ∧
   (∀ j, j ∈ [25200] →
      ∃ fig, first_frame_only !! frame_path path_images_downtown j = Some (Png fig)) ∧
   first_frame_only !! frame_path path_images_downtown 25260 = None) ∧
  create_gif two_trips_sampled path_images_downtown "data/downtown.gif"
    first_frame_only
  = (first_frame_only,
     inl (FileNotFoundError (frame_path path_images_downtown 25260))).
Proof.
  assert (unique two_trips_sampled.*1 = [25200] ++ 25260 :: [25320]) as Hsplit
    by (vm_compute; reflexivity).
  assert (∀ j, j ∈ [25200] →
            ∃ fig, first_frame_only !! frame_path path_images_downtown j
                   = Some (Png fig)) as Hdone.
  { intros j Hj. apply list_elem_of_singleton in Hj as ->. eexists.
    vm_compute. reflexivity. }
  assert (first_frame_only !! frame_path path_images_downtown 25260 = None)
    as Hmissing by (vm_compute; reflexivity).
  split; [by repeat split|].
  exact (create_gif_reports_first_missing_frame two_trips_sampled
           path_images_downtown "data/downtown.gif" first_frame_only
           [25200] 25260 [25320] Hsplit Hdone Hmissing).
Defined.

Lemma downtown_animation_shows_downtown_frames_witness :
  ((∀ i, i ∈ two_trips_sampled.*1 → i `mod` 60 = 0) ∧
   (∀ i j, i ∈ two_trips_sampled.*1 → j ∈ two_trips_sampled.*1 → i - j < 86400) ∧
   draw_and_animate sketch_frame two_routes_lines two_trips_sampled ∅
   = (two_trips_run, inr tt)) ∧
  ∃ frames,
    two_trips_run !! "data/downtown.gif" = Some (Gif frames 10) ∧
    Forall2 (λ i fig, sketch_frame xlim_downtown ylim_downtown two_routes_lines
                        (loc i two_trips_sampled) (strftime_H_M i) = inr fig)
            (unique two_trips_sampled.*1) frames.
Proof.
  split; [split; [exact two_trips_on_the_minute|
                  split; [exact two_trips_within_a_day|exact two_trips_run_done]]|].
  exact (downtown_animation_shows_downtown_frames sketch_frame two_routes_lines
           two_trips_sampled ∅ two_trips_run two_trips_on_the_minute
           two_trips_within_a_day two_trips_run_done).
Defined.

Lemma regional_frames_stay_as_drawn_witness :
  ((∀ i, i ∈ two_trips_sampled.*1 → i `mod` 60 = 0) ∧
   (∀ i j, i ∈ two_trips_sampled.*1 → j ∈ two_trips_sampled.*1 → i - j < 86400) ∧
   draw_and_animate sketch_frame two_routes_lines two_trips_sampled ∅
   = (two_trips_run, inr tt) ∧
   25260 ∈ two_trips_sampled.*1) ∧
  ∃ fig, sketch_frame xlim_greater_portland ylim_greater_portland two_routes_lines
           (loc 25260 two_trips_sampled) (strftime_H_M 25260) = inr fig ∧
         two_trips_run !! frame_path path_images_greater_portland 25260
         = Some (Png fig).
Proof.
  assert (25260 ∈ two_trips_sampled.*1) as Hin by (right; left).
  split; [split; [exact two_trips_on_the_minute|
                  split; [exact two_trips_within_a_day|
                          split; [exact two_trips_run_done|exact Hin]]]|].
  exact (regional_frames_stay_as_drawn sketch_frame two_routes_lines
           two_trips_sampled ∅ two_trips_run two_trips_on_the_minute
           two_trips_within_a_day two_trips_run_done 25260 Hin).
Defined.

Lemma both_animations_are_the_same_witness :
  draw_and_animate sketch_frame two_routes_lines two_trips_sampled ∅
  = (two_trips_run, inr tt) ∧
  ∃ frames,
    two_trips_run !! "data/greater_portland.gif" = Some (Gif frames 10) ∧
    two_trips_run !! "data/downtown.gif" = Some (Gif frames 10).
Proof.
  split; [exact two_trips_run_done|].
  exact (both_animations_are_the_same sketch_frame two_routes_lines
           two_trips_sampled ∅ two_trips_run two_trips_run_done).
Defined.

Lemma draw_and_animate_completes_witness :
  (two_trips_sampled ≠ [] ∧
   (∀ i, i ∈ two_trips_sampled.*1 →
      (∃ fig, sketch_frame xlim_greater_portland ylim_greater_portland
                two_routes_lines (loc i two_trips_sampled) (strftime_H_M i) = inr fig) ∧
      (∃ fig, sketch_frame xlim_downtown ylim_downtown
                two_routes_lines (loc i two_trips_sampled) (strftime_H_M i) = inr fig))) ∧
  ∃ fs', draw_and_animate sketch_frame two_routes_lines two_trips_sampled ∅
         = (fs', inr tt).
Proof.
  assert (two_trips_sampled ≠ []) as Hpos by discriminate.
  assert (∀ i, i ∈ two_trips_sampled.*1 →
      (∃ fig, sketch_frame xlim_greater_portland ylim_greater_portland
                two_routes_lines (loc i two_trips_sampled) (strftime_H_M i) = inr fig) ∧
      (∃ fig, sketch_frame xlim_downtown ylim_downtown
                two_routes_lines (loc i two_trips_sampled) (strftime_H_M i) = inr fig))
    as Hdraw by (intros i _; split; eexists; reflexivity).
  split; [by split|].
  exact (draw_and_animate_completes sketch_frame two_routes_lines two_trips_sampled
           ∅ Hpos Hdraw).
Defined.
